(** * Lira TUI windows: navigation stacks, document rendering, notifications

    A shallow embedding of [lira/tui/windows.py].  The Python classes
    [WindowContainer], [ContentArea], [SidebarMenu] and [StatusBar] become
    functions over an explicit [State]; Python exceptions become the
    [Raise] results of a small error monad; the collaborators the module
    imports (the layout of the running application, the lexer registry,
    pygments, the package version) are the fields of an environment
    record [Env]. *)

From Stdlib Require Import List String Ascii Bool Arith Lia QArith Lqa.
Import ListNotations.

Open Scope string_scope.
Open Scope list_scope.
Open Scope nat_scope.

(** ** Python exceptions as results *)

Inductive exn : Set := IndexError | KeyError | RecursionError.

Inductive result (A : Type) : Type :=
| Ok (a : A)
| Raise (e : exn).

Arguments Ok {A} a.
Arguments Raise {A} e.

Definition bind {A B : Type} (r : result A) (k : A -> result B) : result B :=
  match r with
  | Ok a => k a
  | Raise e => Raise e
  end.

Definition only_RecursionError {A : Type} (r : result A) : Prop :=
  match r with
  | Ok _ => True
  | Raise e => e = RecursionError
  end.

Notation "x <- r ;; k" := (bind r (fun x => k))
  (at level 61, r at next level, right associativity).

(** ** Formatted text (prompt_toolkit) *)

(** A fragment is a pair (style, text); a formatted text is a list of
    fragments. *)
Definition StyleAndTextTuples : Set := list (string * string).

(** A pygments token type is a tuple of names, e.g. [["Name"; "Function"]]. *)
Definition Token : Set := list string.

Inductive Lexer : Set := PygmentsLexer (name : string).

(** What [ContentArea._get_content] collects: either a [FormattedText]
    built by [to_formatted_text], or a [PygmentsTokens] wrapper around the
    token stream of a lexer. *)
Inductive AnyFormattedText : Set :=
| FormattedText (fragments : StyleAndTextTuples)
| PygmentsTokens (token_list : list (Token * string)).

(** [to_formatted_text(value, style)] for a value that is [None] or a
    [str]: [None] gives no fragment, a string gives one unstyled fragment;
    a non-empty [style] is then prefixed (with a space) to every
    fragment's style. *)
Definition to_formatted_text (value : option string) (style : string)
  : StyleAndTextTuples :=
  let result :=
    match value with
    | None => []
    | Some text => [("", text)]
    end in
  if String.eqb style "" then result
  else map (fun '(item_style, text) => (style ++ " " ++ item_style, text)%string)
           result.

(** ** Views *)

Definition Window : Set := nat.

(** The displayable objects the module builds itself, and those that
    the host hands in: [Widget] is an object that is true in a boolean
    context, as objects are unless their class says otherwise, and
    [FalsyWidget] one whose class makes it false there (by a [__bool__]
    or a [__len__] of its own). *)
Inductive View : Set :=
| Label (text : string)
| TextArea (text prompt : string) (focusable : bool)
| FormattedTextArea (text : StyleAndTextTuples) (scrollbar focusable : bool)
| Box (body : View)
| Widget (id : nat)
| FalsyWidget (id : nat).

(** [bool(v)] *)
Definition truthy (v : View) : bool :=
  match v with
  | FalsyWidget _ => false
  | _ => true
  end.

(** ** The environment: what the module imports *)

Record Env : Type := mkEnv {
  (** [tui.app.layout.get_focusable_windows()], which depends on what the
      container currently shows *)
  get_focusable_windows : list View -> list Window;
  (** [lira.__version__] *)
  version : string;
  (** [lira.tui.utils.get_lexer] *)
  get_lexer : option string -> option Lexer;
  (** [pygments.lex(code, lexer)], as the list of the tokens it yields *)
  pygments_lex : string -> Lexer -> list (Token * string);
  (** prompt_toolkit's [pygments_token_to_classname] *)
  pygments_token_to_classname : Token -> string
}.

(** ** State *)

Inductive Class : Set := WindowContainer | ContentArea | SidebarMenu | StatusBar.

(** Calls to the outside world, in the order they are made. *)
Inductive Call : Set :=
| GetFocusableWindows          (* layout.get_focusable_windows() *)
| LayoutFocus (w : Window)     (* layout.focus(window) *)
| SetTitle                     (* lira.tui.utils.set_title() *)
| Invalidate.                  (* get_app().invalidate() *)

(** The attributes of the object ([pages]; [history] for a [StatusBar])
    together with the part of the host it acts on: the window that has
    the input focus and the log of external calls. *)
Record State : Set := mkState {
  cls : Class;
  pages : list View;
  history : list string;
  focused : option Window;
  calls : list Call
}.

Definition set_pages (p : list View) (s : State) : State :=
  mkState (cls s) p (history s) (focused s) (calls s).

Definition set_history (h : list string) (s : State) : State :=
  mkState (cls s) (pages s) h (focused s) (calls s).

Definition set_focused (w : option Window) (s : State) : State :=
  mkState (cls s) (pages s) (history s) w (calls s).

Definition call (c : Call) (s : State) : State :=
  mkState (cls s) (pages s) (history s) (focused s) (calls s ++ [c]).

Definition depth (s : State) : nat := List.length (pages s).

Definition Call_eqb (a b : Call) : bool :=
  match a, b with
  | GetFocusableWindows, GetFocusableWindows => true
  | LayoutFocus v, LayoutFocus w => Nat.eqb v w
  | SetTitle, SetTitle => true
  | Invalidate, Invalidate => true
  | _, _ => false
  end.

Definition count_calls (c : Call) (s : State) : nat :=
  List.length (filter (Call_eqb c) (calls s)).

(** [list.pop()]: removes the last element, [IndexError] on an empty list. *)
Definition list_pop {A : Type} (l : list A) : result (list A) :=
  match l with
  | [] => Raise IndexError
  | _ => Ok (removelast l)
  end.

Definition nl : string := String "010" EmptyString.

Section Containers.

Variable env : Env.

(** [WindowContainer.__init__], on a host whose focus is [f]. *)
Definition init (c : Class) (f : option Window) : State :=
  mkState c [] [] f [].

Definition welcome : string :=
  "Welcome to Lira!" ++ nl ++ nl ++
  "- Press <Ctrl-c> or <Ctrl-q> to exit." ++ nl ++
  "- Navigate with <Tab> and the arrow keys." ++ nl ++ nl ++
  "Version: " ++ version env.

Definition _get_status_area (status : string) : View :=
  TextArea status ">>> " false.

(** [_get_default_container], overridden by [ContentArea] and [StatusBar]. *)
Definition _get_default_container (c : Class) : View :=
  match c with
  | ContentArea => TextArea welcome "" false
  | StatusBar => _get_status_area ""
  | _ => Label "Empty container"
  end.

(** [focus]: the first focusable window of the layout, if any, gets the
    input focus. *)
Definition focus (s : State) : State :=
  let s := call GetFocusableWindows s in
  match hd_error (get_focusable_windows env (pages s)) with
  | Some window => set_focused (Some window) (call (LayoutFocus window) s)
  | None => s
  end.

Definition _box (body : View) : View := Box body.

(** [get_container], overridden by [ContentArea]. *)
Definition get_container (s : State) : View :=
  let shown :=
    match pages s with
    | [] => _get_default_container (cls s)
    | p => last p (_get_default_container (cls s))
    end in
  match cls s with
  | ContentArea => _box shown
  | _ => shown
  end.

Definition push (widget : View) (s : State) : State :=
  focus (set_pages (pages s ++ [widget]) s).

Definition WindowContainer_pop (s : State) : result State :=
  if List.length (pages s) <=? 1 then Ok s
  else
    p <- list_pop (pages s) ;;
    Ok (focus (set_pages p s)).

Definition set_title (s : State) : State := call SetTitle s.

Definition SidebarMenu_pop (s : State) : result State :=
  s <- WindowContainer_pop s ;;
  if List.length (pages s) <=? 1 then Ok (set_title s) else Ok s.

(** Method dispatch on the class of the object. *)
Definition pop (s : State) : result State :=
  match cls s with
  | SidebarMenu => SidebarMenu_pop s
  | _ => WindowContainer_pop s
  end.

(** [reset(widget=None)]: [widget or self._get_default_container()]
    is the default view when [widget] is [None] and also when it is a
    view that is false in a boolean context. *)
Definition reset (widget : option View) (s : State) : State :=
  let widget :=
    match widget with
    | Some w => if truthy w then w else _get_default_container (cls s)
    | None => _get_default_container (cls s)
    end in
  set_pages [widget] s.

(** The filter of the back button of a [SidebarMenu]. *)
Definition back_button_visible (s : State) : bool := 1 <? List.length (pages s).

(** Sequences of stack operations. *)
Inductive Op : Set :=
| Push (widget : View)
| Pop
| Reset (widget : option View).

Definition step (o : Op) (s : State) : result State :=
  match o with
  | Push w => Ok (push w s)
  | Pop => pop s
  | Reset w => Ok (reset w s)
  end.

Fixpoint run (ops : list Op) (s : State) : result State :=
  match ops with
  | [] => Ok s
  | o :: ops => s <- step o s ;; run ops s
  end.

End Containers.

(** ** Text helpers of the Python library *)

(** A Python [str] is modelled by its UTF-8 encoding: a character below
    U+0080 is one byte, every other character a sequence of two to four
    bytes from 128 on.  [utf8] writes a string by the values of its
    bytes. *)
Definition utf8 (bytes : list nat) : string :=
  string_of_list_ascii (map ascii_of_nat bytes).

(** The line boundaries of [str.splitlines]: line feed, carriage return,
    carriage return and line feed, vertical tab, form feed, the file,
    group and record separators, and the characters U+0085, U+2028 and
    U+2029. *)
Definition line_boundaries : list string :=
  [utf8 [10]; utf8 [13]; utf8 [13; 10]; utf8 [11]; utf8 [12];
   utf8 [28]; utf8 [29]; utf8 [30];
   utf8 [194; 133]; utf8 [226; 128; 168]; utf8 [226; 128; 169]].

(** The whitespace characters of [str.isspace]: U+0009 to U+000D, U+001C
    to U+0020, U+0085, U+00A0, U+1680, U+2000 to U+200A, U+2028, U+2029,
    U+202F, U+205F and U+3000. *)
Definition whitespace : list string :=
  [utf8 [9]; utf8 [10]; utf8 [11]; utf8 [12]; utf8 [13];
   utf8 [28]; utf8 [29]; utf8 [30]; utf8 [31]; utf8 [32];
   utf8 [194; 133]; utf8 [194; 160]; utf8 [225; 154; 128];
   utf8 [226; 128; 128]; utf8 [226; 128; 129]; utf8 [226; 128; 130];
   utf8 [226; 128; 131]; utf8 [226; 128; 132]; utf8 [226; 128; 133];
   utf8 [226; 128; 134]; utf8 [226; 128; 135]; utf8 [226; 128; 136];
   utf8 [226; 128; 137]; utf8 [226; 128; 138];
   utf8 [226; 128; 168]; utf8 [226; 128; 169]; utf8 [226; 128; 175];
   utf8 [226; 129; 159]; utf8 [227; 128; 128]].

(** The line boundaries and the whitespace characters of one byte. *)
Definition is_linebreak (c : ascii) : bool :=
  let n := nat_of_ascii c in
  ((10 <=? n) && (n <=? 13)) || ((28 <=? n) && (n <=? 30)).

Definition is_space (c : ascii) : bool :=
  let n := nat_of_ascii c in
  ((9 <=? n) && (n <=? 13)) || ((28 <=? n) && (n <=? 32)).

Definition CR : ascii := "013"%char.
Definition LF : ascii := "010"%char.

(** [text.splitlines(True)]: the lines of [text], each with its line
    ending; a carriage return followed by a line feed is one ending.
    [line] is the beginning of the current line. *)
Fixpoint splitlines_from (line text : string) : list string :=
  match text with
  | EmptyString =>
      match line with
      | EmptyString => []
      | _ => [line]
      end
  | String c rest =>
      let next := splitlines_from (line ++ String c EmptyString)%string rest in
      if is_linebreak c then
        if Ascii.eqb c CR then
          match rest with
          | String d rest' =>
              if Ascii.eqb d LF
              then (line ++ String c (String d EmptyString))%string
                     :: splitlines_from EmptyString rest'
              else (line ++ String c EmptyString)%string
                     :: splitlines_from EmptyString rest
          | EmptyString => [(line ++ String c EmptyString)%string]
          end
        else (line ++ String c EmptyString)%string
               :: splitlines_from EmptyString rest
      else if Ascii.eqb c "194" then
        (* U+0085 *)
        match rest with
        | String d rest' =>
            if Ascii.eqb d "133"
            then (line ++ String c (String d EmptyString))%string
                   :: splitlines_from EmptyString rest'
            else next
        | EmptyString => next
        end
      else if Ascii.eqb c "226" then
        (* U+2028 and U+2029 *)
        match rest with
        | String d (String e rest') =>
            if Ascii.eqb d "128" && (Ascii.eqb e "168" || Ascii.eqb e "169")
            then (line ++ String c (String d (String e EmptyString)))%string
                   :: splitlines_from EmptyString rest'
            else next
        | _ => next
        end
      else next
  end.

Definition splitlines (text : string) : list string :=
  splitlines_from EmptyString text.

(** Every character of [s] is a whitespace character. *)
Fixpoint all_space (s : string) : bool :=
  match s with
  | EmptyString => true
  | String c rest =>
      if is_space c then all_space rest
      else if Ascii.eqb c "194" then
        (* U+0085 and U+00A0 *)
        match rest with
        | String d rest' =>
            (Ascii.eqb d "133" || Ascii.eqb d "160") && all_space rest'
        | EmptyString => false
        end
      else if Ascii.eqb c "225" then
        (* U+1680 *)
        match rest with
        | String d (String e rest') =>
            Ascii.eqb d "154" && Ascii.eqb e "128" && all_space rest'
        | _ => false
        end
      else if Ascii.eqb c "226" then
        (* U+2000 to U+200A, U+2028, U+2029, U+202F and U+205F *)
        match rest with
        | String d (String e rest') =>
            let n := nat_of_ascii e in
            ((Ascii.eqb d "128"
              && (((128 <=? n) && (n <=? 138)) || (n =? 168) || (n =? 169)
                  || (n =? 175)))
             || (Ascii.eqb d "129" && (n =? 159)))
            && all_space rest'
        | _ => false
        end
      else if Ascii.eqb c "227" then
        (* U+3000 *)
        match rest with
        | String d (String e rest') =>
            Ascii.eqb d "128" && Ascii.eqb e "128" && all_space rest'
        | _ => false
        end
      else false
  end.

(** [s.isspace()] *)
Definition isspace (s : string) : bool :=
  match s with
  | EmptyString => false
  | _ => all_space s
  end.

Definition indent_line (prefix line : string) : string :=
  if negb (isspace line) then (prefix ++ line)%string else line.

(** [textwrap.indent(text, prefix)]: [prefix] is added to the beginning
    of every line that does not consist solely of whitespace. *)
Definition indent (text prefix : string) : string :=
  String.concat "" (map (indent_line prefix) (splitlines text)).

(** The line ending at the beginning of a text, with what follows it. *)
Definition ending_at (text : string) : option (string * string) :=
  match text with
  | EmptyString => None
  | String c rest =>
      if is_linebreak c then
        if Ascii.eqb c CR then
          match rest with
          | String d rest' =>
              if Ascii.eqb d LF
              then Some (String c (String d EmptyString), rest')
              else Some (String c EmptyString, rest)
          | EmptyString => Some (String c EmptyString, rest)
          end
        else Some (String c EmptyString, rest)
      else if Ascii.eqb c "194" then
        match rest with
        | String d rest' =>
            if Ascii.eqb d "133"
            then Some (String c (String d EmptyString), rest')
            else None
        | EmptyString => None
        end
      else if Ascii.eqb c "226" then
        match rest with
        | String d (String e rest') =>
            if Ascii.eqb d "128" && (Ascii.eqb e "168" || Ascii.eqb e "169")
            then Some (String c (String d (String e EmptyString)), rest')
            else None
        | _ => None
        end
      else None
  end.

(** ** Indentation in words *)

(** What it is for a text to be indented by two columns, said without
    the functions above: the text is cut into its lines, each a body
    that holds no line boundary followed by a line boundary, which only
    the last line may lack; a line of whitespace characters stays as it
    is, and every other line gets two spaces in front. *)
Definition has_line_boundary (s : string) : Prop :=
  exists a e b, In e line_boundaries /\ s = (a ++ e ++ b)%string.

Definition starts_with_LF (s : string) : bool :=
  match s with
  | String c _ => Ascii.eqb c LF
  | EmptyString => false
  end.

Inductive Lines : string -> list string -> Prop :=
| Lines_nil : Lines EmptyString []
| Lines_last (body : string) :
    body <> EmptyString -> ~ has_line_boundary body ->
    Lines body [body]
| Lines_cons (body ending rest : string) (ls : list string) :
    ~ has_line_boundary body ->
    In ending line_boundaries ->
    (ending = utf8 [13] -> starts_with_LF rest = false) ->
    Lines rest ls ->
    Lines (body ++ ending ++ rest)%string ((body ++ ending)%string :: ls).

(** [Blank s]: [s] is made of one or more whitespace characters. *)
Inductive Blank : string -> Prop :=
| Blank_one (w : string) : In w whitespace -> Blank w
| Blank_more (w s : string) :
    In w whitespace -> Blank s -> Blank (w ++ s)%string.

Inductive TwoColumns : string -> string -> Prop :=
| TwoColumns_blank (line : string) :
    Blank line -> TwoColumns line line
| TwoColumns_other (line : string) :
    ~ Blank line -> TwoColumns line ("  " ++ line)%string.

(** A byte of a character below U+0080 that is no line boundary. *)
Definition plain (c : ascii) : bool :=
  (nat_of_ascii c <? 128) && negb (is_linebreak c).

Fixpoint all_plain (s : string) : bool :=
  match s with
  | EmptyString => true
  | String c s => plain c && all_plain s
  end.

(** ** The document model *)

(** Modelled from the spec: the document model (the node classes of
    lira's parsers) is not part of this module.  A node has a tag, named
    options (a section's title, a code block's language; an absent
    option is [None]), an ordered sequence of children and a leaf-text
    accessor. *)
Record Options : Set := mkOptions {
  title : option string;
  language : option string
}.

#[warnings="-register-all"] Inductive Node : Set :=
| mkNode (tagname : string) (options : Options) (children : list Node)
         (text : string).

Definition tagname (n : Node) : string :=
  match n with mkNode t _ _ _ => t end.

Definition options (n : Node) : Options :=
  match n with mkNode _ o _ _ => o end.

Definition children (n : Node) : list Node :=
  match n with mkNode _ _ c _ => c end.

Definition text (n : Node) : string :=
  match n with mkNode _ _ _ t => t end.

(** ** ContentArea: the renderer *)

(** The class attribute [style]; a missing key raises [KeyError]. *)
Definition style (tag : string) : result string :=
  if (tag =? "Section")%string then Ok "class:title"
  else if (tag =? "Text")%string then Ok "class:text"
  else if (tag =? "Strong")%string then Ok "class:strong"
  else if (tag =? "Emphasis")%string then Ok "class:emphasis"
  else Raise KeyError.

Definition _get_separator : list AnyFormattedText :=
  [FormattedText (to_formatted_text (Some (nl ++ nl)%string) "")].

Section Renderer.

Variable env : Env.

Definition _parse_code_block (node : Node) : list AnyFormattedText :=
  let code := indent (text node) "  " in
  let lexer := get_lexer env (language (options node)) in
  let formatted_text :=
    match lexer with
    | Some lexer => PygmentsTokens (pygments_lex env code lexer)
    | None => FormattedText (to_formatted_text (Some code) "class:text")
    end in
  [formatted_text].

(** The loop over [node.children] in [_get_content]; [recurse] is the
    method itself, and [content] the list built so far. *)
Fixpoint for_children (recurse : Node -> result (list AnyFormattedText))
    (node : Node) (cs : list Node) (content : list AnyFormattedText)
  : result (list AnyFormattedText) :=
  match cs with
  | [] => Ok content
  | child :: cs =>
      let tag := tagname child in
      content <-
        (if (tag =? "Section")%string then
           sub <- recurse node ;;
           Ok (content ++ sub)
         else if (tag =? "Paragraph")%string then
           let content := content ++ _get_separator in
           sub <- recurse child ;;
           Ok (content ++ sub)
         else if (tag =? "CodeBlock")%string then
           let content := content ++ _get_separator in
           Ok (content ++ _parse_code_block child)
         else if (tag =? "TestBlock")%string then
           Ok (content ++
               [FormattedText
                  (to_formatted_text (Some (nl ++ nl ++ " [TestBlock]")%string) "")])
         else if (tag =? "Text")%string || (tag =? "Strong")%string
                 || (tag =? "Emphasis")%string then
           st <- style tag ;;
           Ok (content ++ [FormattedText (to_formatted_text (Some (text child)) st)])
         else Ok content) ;;
      for_children recurse node cs content
  end.

(** [_get_content]; [limit] is the number of nested calls of the method
    that the interpreter still allows: at 0 the call raises
    [RecursionError]. *)
Fixpoint _get_content (limit : nat) (node : Node)
  : result (list AnyFormattedText) :=
  match limit with
  | 0 => Raise RecursionError
  | S limit =>
      let tag := tagname node in
      content <-
        (if (tag =? "Section")%string then
           st <- style tag ;;
           Ok [FormattedText (to_formatted_text (title (options node)) st)]
         else Ok []) ;;
      for_children (_get_content limit) node (children node) content
  end.

(** What prompt_toolkit makes of one collected item. *)
Definition fragments_of (item : AnyFormattedText) : StyleAndTextTuples :=
  match item with
  | FormattedText fragments => fragments
  | PygmentsTokens token_list =>
      map (fun '(token, text) =>
             (("class:" ++ pygments_token_to_classname env token)%string, text))
          token_list
  end.

Definition merge_formatted_text (items : list AnyFormattedText)
  : StyleAndTextTuples :=
  flat_map fragments_of items.

(** [render_section], on the state of [tui.content]. *)
Definition render_section (limit : nat) (section : Node) (content : State)
  : result State :=
  items <- _get_content limit section ;;
  let parsed_section := merge_formatted_text items in
  Ok (reset env (Some (FormattedTextArea parsed_section true true)) content).

End Renderer.

(** The traversal as the specification words it: on a child that is a
    Section the method is applied to that child. *)
Section RendererSpec.

Variable env : Env.

Fixpoint for_children_spec (recurse : Node -> result (list AnyFormattedText))
    (cs : list Node) (content : list AnyFormattedText)
  : result (list AnyFormattedText) :=
  match cs with
  | [] => Ok content
  | child :: cs =>
      let tag := tagname child in
      content <-
        (if (tag =? "Section")%string then
           sub <- recurse child ;;
           Ok (content ++ sub)
         else if (tag =? "Paragraph")%string then
           let content := content ++ _get_separator in
           sub <- recurse child ;;
           Ok (content ++ sub)
         else if (tag =? "CodeBlock")%string then
           let content := content ++ _get_separator in
           Ok (content ++ _parse_code_block env child)
         else if (tag =? "TestBlock")%string then
           Ok (content ++
               [FormattedText
                  (to_formatted_text (Some (nl ++ nl ++ " [TestBlock]")%string) "")])
         else if (tag =? "Text")%string || (tag =? "Strong")%string
                 || (tag =? "Emphasis")%string then
           st <- style tag ;;
           Ok (content ++ [FormattedText (to_formatted_text (Some (text child)) st)])
         else Ok content) ;;
      for_children_spec recurse cs content
  end.

Fixpoint _get_content_spec (limit : nat) (node : Node)
  : result (list AnyFormattedText) :=
  match limit with
  | 0 => Raise RecursionError
  | S limit =>
      let tag := tagname node in
      content <-
        (if (tag =? "Section")%string then
           st <- style tag ;;
           Ok [FormattedText (to_formatted_text (title (options node)) st)]
         else Ok []) ;;
      for_children_spec (_get_content_spec limit) (children node) content
  end.

End RendererSpec.

(** ** StatusBar *)

Section Status.

Variable env : Env.

Definition invalidate (s : State) : State := call Invalidate s.

Definition update_status (status : string) (s : State) : State :=
  let s := set_history (history s ++ [status]) s in
  let s := reset env (Some (_get_status_area status)) s in
  invalidate s.

(** A coroutine is a sequence of synchronous steps on the status bar,
    separated by [await asyncio.sleep(delay)]. *)
Inductive Coroutine : Type :=
| Return
| AwaitSleep (delay : Q) (k : Coroutine)
| Exec (f : State -> State) (k : Coroutine).

(** The body [_main] of [notify]. *)
Definition _main (text : string) (delay : Q) : Coroutine :=
  AwaitSleep (1 # 10)
    (Exec (update_status text)
       (AwaitSleep delay
          (Exec (update_status "")
             Return))).

(** The event loop: its clock, the tasks that are ready to run, the
    timers with the time at which each is due (earliest first), the
    status bar, and the record of every synchronous step with the time
    at which it ran. *)
Record Loop : Type := mkLoop {
  now : Q;
  ready : list Coroutine;
  scheduled : list (Q * Coroutine);
  bar : State;
  timeline : list (Q * State);
  iterations : nat
}.

(** [asyncio.create_task(_main())] *)
Definition notify (text : string) (delay : Q) (l : Loop) : Loop :=
  mkLoop (now l) (ready l ++ [_main text delay]) (scheduled l) (bar l)
         (timeline l) (iterations l).

Fixpoint call_later (t : Q * Coroutine) (timers : list (Q * Coroutine))
  : list (Q * Coroutine) :=
  match timers with
  | [] => [t]
  | u :: timers' =>
      if Qle_bool (fst u) (fst t) then u :: call_later t timers'
      else t :: timers
  end.

(** Runs a task up to its next suspension.  [asyncio.sleep(delay)] with
    [delay <= 0] only yields to the loop, which makes the task ready
    again; otherwise a timer is set [delay] after the current time. *)
Fixpoint resume (c : Coroutine) (l : Loop) : Loop :=
  match c with
  | Return => l
  | Exec f k =>
      let s := f (bar l) in
      resume k (mkLoop (now l) (ready l) (scheduled l) s
                       (timeline l ++ [(now l, s)]) (iterations l))
  | AwaitSleep delay k =>
      if Qle_bool delay 0 then
        mkLoop (now l) (ready l ++ [k]) (scheduled l) (bar l)
               (timeline l) (iterations l)
      else
        mkLoop (now l) (ready l) (call_later ((now l + delay)%Q, k) (scheduled l))
               (bar l) (timeline l) (iterations l)
  end.

Definition idle (l : Loop) : bool :=
  match ready l, scheduled l with
  | [], [] => true
  | _, _ => false
  end.

(** [elapse n] is the time that goes by during iteration [n] of the loop
    beyond the waiting for the first timer. *)
Variable elapse : nat -> Q.

(** One iteration of the loop: with nothing ready it waits for the first
    timer; the timers that are due become ready; every ready task is
    resumed once.  The clock is exact: a timer never runs before the
    time it was set for. *)
Definition run_once (l : Loop) : Loop :=
  let wake :=
    match ready l, scheduled l with
    | [], (when, _) :: _ => if Qle_bool when (now l) then now l else when
    | _, _ => now l
    end in
  let t := (wake + elapse (iterations l))%Q in
  let is_due := fun timer : Q * Coroutine => Qle_bool (fst timer) t in
  let due := filter is_due (scheduled l) in
  let later := filter (fun timer => negb (is_due timer)) (scheduled l) in
  let todo := ready l ++ map snd due in
  fold_left (fun l c => resume c l) todo
    (mkLoop t [] later (bar l) (timeline l) (S (iterations l))).

(** The loop runs until no task is left, for at most [n] iterations. *)
Fixpoint run_loop (n : nat) (l : Loop) : Loop :=
  match n with
  | 0 => l
  | S n => if idle l then l else run_loop n (run_once l)
  end.

End Status.

(** ** Sample inputs *)

(** A host whose first focusable window is the widget on top of the
    stack, with a lexer for Python only that yields the whole code as
    one token. *)
Definition sample_env : Env :=
  mkEnv
    (fun shown =>
       match last shown (Label "") with
       | Widget id => [id]
       | FormattedTextArea _ _ true => [0]
       | _ => []
       end)
    "0.3.0"
    (fun lang =>
       match lang with
       | Some l => if (l =? "python")%string then Some (PygmentsLexer l) else None
       | None => None
       end)
    (fun code _ => [(["Text"], code)])
    (fun token => String.concat "." ("pygments" :: token)).

(** A sidebar menu that shows its root list. *)
Definition root_menu : State :=
  mkState SidebarMenu [Widget 1] [] None [].

(** Sample documents. *)
Definition leaf (tag content : string) : Node :=
  mkNode tag (mkOptions None None) [] content.

Definition paragraph (cs : list Node) : Node :=
  mkNode "Paragraph" (mkOptions None None) cs "".

Definition section (heading : option string) (cs : list Node) : Node :=
  mkNode "Section" (mkOptions heading None) cs "".

Definition code_block (lang : option string) (source : string) : Node :=
  mkNode "CodeBlock" (mkOptions None lang) [] source.

(** One Section "T" with two paragraphs "A" and "B". *)
Definition two_paragraphs : Node :=
  section (Some "T") [paragraph [leaf "Text" "A"]; paragraph [leaf "Text" "B"]].

(** A Section "T" with a subsection "U". *)
Definition nested_sections : Node :=
  section (Some "T") [section (Some "U") []].

(** The same without titles. *)
Definition untitled_nested_sections : Node :=
  section None [section None []].

(** How many nested calls the rendering of a tree needs when every
    recursion goes into a child. *)
Fixpoint height (n : Node) : nat :=
  match n with
  | mkNode _ _ cs _ =>
      S ((fix max_height (l : list Node) : nat :=
            match l with
            | [] => 0
            | c :: l => Nat.max (height c) (max_height l)
            end) cs)
  end.

Definition is_section (n : Node) : bool := (tagname n =? "Section")%string.

Definition is_paragraph (n : Node) : bool := (tagname n =? "Paragraph")%string.

(** No Section among the children of the node, nor among those of the
    paragraphs the traversal enters. *)
Fixpoint no_subsection (n : Node) : bool :=
  match n with
  | mkNode _ _ cs _ =>
      (fix all (l : list Node) : bool :=
         match l with
         | [] => true
         | c :: l =>
             negb (is_section c)
             && (if is_paragraph c then no_subsection c else true)
             && all l
         end) cs
  end.

(** Helpers for stating properties of runs and of rendered trees. *)
Definition is_reset (o : Op) : bool :=
  match o with
  | Reset _ => true
  | _ => false
  end.


(** The tags that [_get_content] dispatches on. *)
Definition is_known_tag (tag : string) : bool :=
  (tag =? "Section")%string || (tag =? "Paragraph")%string
  || (tag =? "CodeBlock")%string || (tag =? "TestBlock")%string
  || (tag =? "Text")%string || (tag =? "Strong")%string
  || (tag =? "Emphasis")%string.

Fixpoint drop (n : nat) (s : string) : string :=
  match n, s with
  | S n, String _ s => drop n s
  | _, _ => s
  end.

(** Takes the indentation of [n] columns off a line again. *)
Definition unindent_line (n : nat) (line : string) : string :=
  if isspace line then line else drop n line.

(** * Properties of the navigation stack *)

Section StackFacts.

Variable env : Env.

Lemma pages_focus (s : State) : pages (focus env s) = pages s.
Proof.
  unfold focus. destruct (hd_error _); reflexivity.
Qed.

Lemma cls_focus (s : State) : cls (focus env s) = cls s.
Proof.
  unfold focus. destruct (hd_error _); reflexivity.
Qed.

Lemma history_focus (s : State) : history (focus env s) = history s.
Proof.
  unfold focus. destruct (hd_error _); reflexivity.
Qed.

Lemma count_calls_call (c d : Call) (s : State) :
  count_calls c (call d s) = count_calls c s + (if Call_eqb c d then 1 else 0).
Proof.
  unfold count_calls, call; simpl. rewrite filter_app, length_app; simpl.
  destruct (Call_eqb c d); reflexivity.
Qed.

Lemma count_calls_set_focused (c : Call) (w : option Window) (s : State) :
  count_calls c (set_focused w s) = count_calls c s.
Proof. reflexivity. Qed.

Lemma count_calls_set_pages (c : Call) (p : list View) (s : State) :
  count_calls c (set_pages p s) = count_calls c s.
Proof. reflexivity. Qed.

(** The focus hook asks the layout once and never resets the title. *)
Lemma count_SetTitle_focus (s : State) :
  count_calls SetTitle (focus env s) = count_calls SetTitle s.
Proof.
  unfold focus. destruct (hd_error _).
  - rewrite count_calls_set_focused, !count_calls_call; simpl. lia.
  - rewrite count_calls_call; simpl. lia.
Qed.

Lemma count_GetFocusableWindows_focus (s : State) :
  count_calls GetFocusableWindows (focus env s)
  = S (count_calls GetFocusableWindows s).
Proof.
  unfold focus. destruct (hd_error _).
  - rewrite count_calls_set_focused, !count_calls_call; simpl. lia.
  - rewrite count_calls_call; simpl. lia.
Qed.

(** [WindowContainer.pop] never raises: below two pages it returns at
    once, otherwise the list it pops is not empty. *)
Lemma WindowContainer_pop_eq (s : State) :
  WindowContainer_pop env s
  = Ok (if depth s <=? 1 then s
        else focus env (set_pages (removelast (pages s)) s)).
Proof.
  unfold WindowContainer_pop, depth.
  destruct (pages s) as [|v p] eqn:E; simpl; [reflexivity|].
  destruct (List.length p <=? 0); reflexivity.
Qed.

Lemma length_removelast_pages (p : list View) :
  List.length (removelast p) = List.length p - 1.
Proof.
  destruct p as [|v p] using rev_ind; [reflexivity|].
  rewrite removelast_last, length_app; simpl. lia.
Qed.

Lemma depth_WindowContainer_pop (s : State) :
  exists s', WindowContainer_pop env s = Ok s'
             /\ depth s' = (if depth s <=? 1 then depth s else depth s - 1).
Proof.
  rewrite WindowContainer_pop_eq. eexists; split; [reflexivity|].
  destruct (depth s <=? 1) eqn:E; [reflexivity|].
  unfold depth. rewrite pages_focus; simpl. apply length_removelast_pages.
Qed.

Lemma SidebarMenu_pop_eq (s : State) :
  SidebarMenu_pop env s
  = Ok (if depth s <=? 1 then set_title s
        else if depth s <=? 2
             then set_title (focus env (set_pages (removelast (pages s)) s))
             else focus env (set_pages (removelast (pages s)) s)).
Proof.
  unfold SidebarMenu_pop. rewrite WindowContainer_pop_eq; simpl.
  fold (depth s).
  destruct (depth s <=? 1) eqn:E1.
  - fold (depth s). rewrite E1. reflexivity.
  - rewrite pages_focus; simpl. rewrite length_removelast_pages.
    fold (depth s).
    apply Nat.leb_gt in E1.
    destruct (depth s <=? 2) eqn:E2.
    + apply Nat.leb_le in E2.
      replace (depth s - 1 <=? 1) with true by (symmetry; apply Nat.leb_le; lia).
      reflexivity.
    + apply Nat.leb_gt in E2.
      replace (depth s - 1 <=? 1) with false by (symmetry; apply Nat.leb_gt; lia).
      reflexivity.
Qed.

Lemma depth_pop (s : State) :
  exists s', pop env s = Ok s'
             /\ depth s' = (if depth s <=? 1 then depth s else depth s - 1).
Proof.
  unfold pop. destruct (cls s); try apply depth_WindowContainer_pop.
  rewrite SidebarMenu_pop_eq. eexists; split; [reflexivity|].
  destruct (depth s <=? 1) eqn:E1; [reflexivity|].
  destruct (depth s <=? 2); unfold depth, set_title; simpl;
    rewrite pages_focus; simpl; apply length_removelast_pages.
Qed.

Lemma depth_push (v : View) (s : State) : depth (push env v s) = S (depth s).
Proof.
  unfold push, depth. rewrite pages_focus; simpl.
  rewrite length_app; simpl. lia.
Qed.

Lemma depth_reset (w : option View) (s : State) : depth (reset env w s) = 1.
Proof. reflexivity. Qed.

(** No operation raises, and none empties a stack that is not empty. *)
Lemma step_keeps_nonempty (o : Op) (s : State) :
  exists s', step env o s = Ok s' /\ (1 <= depth s -> 1 <= depth s').
Proof.
  destruct o as [v| |w]; simpl.
  - eexists; split; [reflexivity|]. rewrite depth_push. lia.
  - destruct (depth_pop s) as (s' & -> & D). exists s'; split; [reflexivity|].
    rewrite D. destruct (depth s <=? 1) eqn:E; [lia|].
    apply Nat.leb_gt in E. lia.
  - eexists; split; [reflexivity|]. rewrite depth_reset. lia.
Qed.

Lemma run_keeps_nonempty (ops : list Op) :
  forall s, exists s', run env ops s = Ok s' /\ (1 <= depth s -> 1 <= depth s').
Proof.
  induction ops as [|o ops IH]; intros s; simpl.
  - exists s; split; [reflexivity|trivial].
  - destruct (step_keeps_nonempty o s) as (s1 & -> & D1); simpl.
    destruct (IH s1) as (s2 & -> & D2).
    exists s2; split; [reflexivity|]. auto.
Qed.

Lemma run_app (a b : list Op) :
  forall s, run env (a ++ b) s = (s' <- run env a s ;; run env b s').
Proof.
  induction a as [|o a IH]; intros s; simpl; [reflexivity|].
  destruct (step env o s); simpl; [apply IH|reflexivity].
Qed.

Lemma run_after_initialisation (pre post : list Op) (o : Op) (s : State) :
  (forall s0, depth (match step env o s0 with Ok s1 => s1 | Raise _ => s0 end) >= 1) ->
  exists s', run env (pre ++ o :: post) s = Ok s' /\ 1 <= depth s'.
Proof.
  intros Hinit. rewrite run_app.
  destruct (run_keeps_nonempty pre s) as (s1 & -> & _); simpl.
  specialize (Hinit s1).
  destruct (step_keeps_nonempty o s1) as (s2 & E & _). rewrite E in *; simpl.
  destruct (run_keeps_nonempty post s2) as (s3 & -> & D).
  exists s3; split; [reflexivity|]. apply D. exact Hinit.
Qed.

(** C1. Whatever the state of a container, and whatever its class, once
    a push or a reset has occurred every later sequence of push, pop and
    reset operations runs without an exception and leaves a stack of
    depth at least 1. *)
Theorem stack_never_empty_once_initialised
    (s : State) (pre post : list Op) (v : View) (w : option View) :
  (exists s', run env (pre ++ Push v :: post) s = Ok s' /\ 1 <= depth s')
  /\ (exists s', run env (pre ++ Reset w :: post) s = Ok s' /\ 1 <= depth s').
Proof.
  split; apply run_after_initialisation; intros s0; simpl.
  - rewrite depth_push. lia.
  - rewrite depth_reset. lia.
Qed.

(** C6. On a container with at most one page, [pop] returns normally;
    [WindowContainer.pop] leaves the whole state as it is, and the
    [pop] of every class leaves the pages, the view shown, the history
    and the input focus as they are. *)
Theorem pop_at_floor_is_noop (s : State) (H : depth s <= 1) :
  WindowContainer_pop env s = Ok s
  /\ (cls s <> SidebarMenu -> pop env s = Ok s)
  /\ exists s', pop env s = Ok s'
                /\ pages s' = pages s
                /\ get_container env s' = get_container env s
                /\ history s' = history s
                /\ focused s' = focused s.
Proof.
  assert (E : WindowContainer_pop env s = Ok s).
  { rewrite WindowContainer_pop_eq. apply Nat.leb_le in H. rewrite H. reflexivity. }
  split; [exact E|]. split.
  - unfold pop. destruct (cls s); congruence.
  - unfold pop. destruct (cls s) eqn:C; try (exists s; repeat split; exact E).
    rewrite SidebarMenu_pop_eq. apply Nat.leb_le in H. rewrite H.
    exists (set_title s). repeat split.
Qed.

(** C7.  [SidebarMenu.pop] returns normally and resets the
    title exactly once when the stack has at most one page after it,
    that is when it had at most two pages before: on the pop from depth
    2 to depth 1 and also on the pop without effect at depth 0 or 1; it
    does not reset the title when it had more than two. *)
Theorem SidebarMenu_pop_title_reset (s : State) :
  exists s', SidebarMenu_pop env s = Ok s'
             /\ depth s' = (if depth s <=? 1 then depth s else depth s - 1)
             /\ count_calls SetTitle s'
                = count_calls SetTitle s + (if depth s <=? 2 then 1 else 0).
Proof.
  rewrite SidebarMenu_pop_eq. eexists; split; [reflexivity|].
  destruct (depth s <=? 1) eqn:E1.
  - apply Nat.leb_le in E1.
    replace (depth s <=? 2) with true by (symmetry; apply Nat.leb_le; lia).
    split; [reflexivity|].
    unfold set_title. rewrite count_calls_call. reflexivity.
  - destruct (depth s <=? 2) eqn:E2; split;
      unfold set_title, depth; simpl; rewrite ?pages_focus; simpl;
      try apply length_removelast_pages.
    + fold (call SetTitle (focus env (set_pages (removelast (pages s)) s))).
      rewrite count_calls_call, count_SetTitle_focus. reflexivity.
    + rewrite count_SetTitle_focus, count_calls_set_pages. lia.
Qed.

(** C10. [reset] puts one view as the only page: the given view when it
    is true in a boolean context, the default view of the class when
    none is given or the given one is false there; it leaves the input
    focus and the log of external calls as they are, so the focus hook
    does not run.  [push] runs the hook once, and so does [pop] when it
    removes a page. *)
Theorem reset_leaves_focus (s : State) (w : option View) (v : View) :
  pages (reset env w s)
  = [match w with
     | Some given =>
         if truthy given then given else _get_default_container env (cls s)
     | None => _get_default_container env (cls s)
     end]
  /\ focused (reset env w s) = focused s
  /\ calls (reset env w s) = calls s
  /\ history (reset env w s) = history s
  /\ count_calls GetFocusableWindows (push env v s)
     = S (count_calls GetFocusableWindows s)
  /\ exists s', WindowContainer_pop env s = Ok s'
                /\ count_calls GetFocusableWindows s'
                   = count_calls GetFocusableWindows s
                     + (if depth s <=? 1 then 0 else 1).
Proof.
  split; [reflexivity|]. repeat split.
  - unfold push. rewrite count_GetFocusableWindows_focus. reflexivity.
  - rewrite WindowContainer_pop_eq. eexists; split; [reflexivity|].
    destruct (depth s <=? 1); [lia|].
    rewrite count_GetFocusableWindows_focus, count_calls_set_pages. lia.
Qed.

End StackFacts.

Lemma pop_at_floor_is_noop_witness :
  depth root_menu <= 1
  /\ WindowContainer_pop sample_env root_menu = Ok root_menu
  /\ (cls root_menu <> SidebarMenu -> pop sample_env root_menu = Ok root_menu)
  /\ exists s', pop sample_env root_menu = Ok s'
                /\ pages s' = pages root_menu
                /\ get_container sample_env s' = get_container sample_env root_menu
                /\ history s' = history root_menu
                /\ focused s' = focused root_menu.
Proof.
  assert (H : depth root_menu <= 1) by exact (le_n 1).
  split; [exact H|].
  exact (pop_at_floor_is_noop sample_env root_menu H).
Defined.

(** C7, on a menu at its root: the pop without effect (depth 1 before
    and after) resets the title although no page is removed. *)
Lemma title_reset_on_noop_pop :
  depth root_menu = 1
  /\ SidebarMenu_pop sample_env root_menu = Ok (set_title root_menu)
  /\ depth (set_title root_menu) = 1
  /\ count_calls SetTitle root_menu = 0
  /\ count_calls SetTitle (set_title root_menu) = 1.
Proof. repeat split. Qed.

(** C10, on a view that is false in a boolean context: [reset] with this
    view shows the default view of the class, not the view. *)
Lemma reset_with_false_view_installs_default :
  pages (reset sample_env (Some (FalsyWidget 2)) root_menu)
  = [Label "Empty container"]
  /\ pages (reset sample_env (Some (FalsyWidget 2)) root_menu)
     <> [FalsyWidget 2].
Proof. split; [reflexivity|discriminate]. Qed.

(** * Properties of the renderer *)

Section RendererFacts.

Variable env : Env.

Lemma for_children_only_RecursionError
    (recurse : Node -> result (list AnyFormattedText)) (node : Node) :
  (forall n, only_RecursionError (recurse n)) ->
  forall cs content,
    only_RecursionError (for_children env recurse node cs content).
Proof.
  intros Hrec. induction cs as [|child cs IH]; intros content; simpl; [exact I|].
  destruct (tagname child =? "Section")%string.
  { pose proof (Hrec node) as H. destruct (recurse node); simpl; [apply IH|exact H]. }
  destruct (tagname child =? "Paragraph")%string.
  { pose proof (Hrec child) as H. destruct (recurse child); simpl; [apply IH|exact H]. }
  destruct (tagname child =? "CodeBlock")%string; [apply IH|].
  destruct (tagname child =? "TestBlock")%string; [apply IH|].
  destruct (tagname child =? "Text")%string eqn:E1.
  { apply String.eqb_eq in E1. rewrite E1. simpl. apply IH. }
  destruct (tagname child =? "Strong")%string eqn:E2.
  { apply String.eqb_eq in E2. rewrite E2. simpl. apply IH. }
  destruct (tagname child =? "Emphasis")%string eqn:E3.
  { apply String.eqb_eq in E3. rewrite E3. simpl. apply IH. }
  simpl. apply IH.
Qed.

(** The lookups in [style] never fail: the only exception of the
    traversal is [RecursionError]. *)
Lemma _get_content_only_RecursionError (limit : nat) :
  forall node, only_RecursionError (_get_content env limit node).
Proof.
  induction limit as [|limit IH]; intros node; simpl; [reflexivity|].
  destruct (tagname node =? "Section")%string eqn:E.
  - apply String.eqb_eq in E. rewrite E. simpl.
    apply for_children_only_RecursionError. exact IH.
  - simpl. apply for_children_only_RecursionError. exact IH.
Qed.

(** When the method fails on the node itself, the loop fails at the
    first child that is a Section, if it gets that far. *)
Lemma for_children_subsection
    (recurse : Node -> result (list AnyFormattedText)) (node : Node) :
  (forall n, only_RecursionError (recurse n)) ->
  recurse node = Raise RecursionError ->
  forall cs content,
    existsb is_section cs = true ->
    for_children env recurse node cs content = Raise RecursionError.
Proof.
  intros Hrec Hnode. induction cs as [|child cs IH]; intros content Hex.
  - discriminate.
  - simpl in Hex. unfold is_section at 1 in Hex. simpl.
    destruct (tagname child =? "Section")%string eqn:E.
    + rewrite Hnode. reflexivity.
    + simpl in Hex.
      pose proof (for_children_only_RecursionError recurse node Hrec [child] content)
        as H1.
      simpl in H1. rewrite E in H1.
      match goal with
      | |- bind ?r _ = _ => destruct r as [content'|e]; simpl in *
      end.
      * apply IH. exact Hex.
      * congruence.
Qed.

Lemma _get_content_subsection (node : Node) :
  existsb is_section (children node) = true ->
  forall limit, _get_content env limit node = Raise RecursionError.
Proof.
  intros Hex. induction limit as [|limit IH]; simpl; [reflexivity|].
  destruct (tagname node =? "Section")%string eqn:E.
  - apply String.eqb_eq in E. rewrite E. simpl.
    apply for_children_subsection; auto using _get_content_only_RecursionError.
  - simpl.
    apply for_children_subsection; auto using _get_content_only_RecursionError.
Qed.

(** The loop only appends to the list it is given. *)
Lemma for_children_appends
    (recurse : Node -> result (list AnyFormattedText)) (node : Node) :
  forall cs content,
    for_children env recurse node cs content
    = (items <- for_children env recurse node cs [] ;; Ok (content ++ items)).
Proof.
  induction cs as [|child cs IH]; intros content; simpl.
  - rewrite app_nil_r. reflexivity.
  - set (one := fun content : list AnyFormattedText =>
                  for_children env recurse node [child] content).
    assert (Hone : forall c, one c = (items <- one [] ;; Ok (c ++ items))).
    { intros c. unfold one; simpl.
      destruct (tagname child =? "Section")%string.
      { destruct (recurse node); reflexivity. }
      destruct (tagname child =? "Paragraph")%string.
      { destruct (recurse child); simpl; rewrite <- ?app_assoc; reflexivity. }
      destruct (tagname child =? "CodeBlock")%string.
      { simpl. rewrite <- ?app_assoc. reflexivity. }
      destruct (tagname child =? "TestBlock")%string; [reflexivity|].
      destruct ((tagname child =? "Text")%string || (tagname child =? "Strong")%string
                || (tagname child =? "Emphasis")%string).
      { destruct (style (tagname child)); reflexivity. }
      simpl. rewrite app_nil_r. reflexivity. }
    assert (Hstep : forall c,
               for_children env recurse node (child :: cs) c
               = (c' <- one c ;; for_children env recurse node cs c')).
    { intros c. unfold one. simpl.
      match goal with |- bind ?r _ = _ => destruct r; reflexivity end. }
    change (for_children env recurse node (child :: cs) content
            = (items <- for_children env recurse node (child :: cs) [] ;;
               Ok (content ++ items))).
    rewrite !Hstep, (Hone content).
    destruct (one []) as [items|e]; simpl; [|reflexivity].
    rewrite (IH (content ++ items)), (IH items).
    destruct (for_children env recurse node cs []); simpl; [|reflexivity].
    rewrite app_assoc. reflexivity.
Qed.

Lemma height_children (tag : string) (o : Options) (cs : list Node) (t : string)
    (c : Node) :
  In c cs -> height c < height (mkNode tag o cs t).
Proof.
  simpl. induction cs as [|d cs IH]; intros Hin; [contradiction|].
  destruct Hin as [->|Hin]; [lia|]. specialize (IH Hin). lia.
Qed.

(** Without a Section among the children that the traversal meets, the
    loop returns as soon as the method returns on the paragraphs. *)
Lemma for_children_returns
    (recurse : Node -> result (list AnyFormattedText)) (node : Node) :
  forall cs content,
    (forall c, In c cs -> is_section c = false
                          /\ (is_paragraph c = true -> exists items, recurse c = Ok items)) ->
    exists items, for_children env recurse node cs content = Ok items.
Proof.
  induction cs as [|child cs IH]; intros content Hcs; simpl.
  - eauto.
  - destruct (Hcs child (or_introl eq_refl)) as [Hs Hp].
    unfold is_section in Hs. unfold is_paragraph in Hp. rewrite Hs.
    assert (Hrest : forall c, In c cs -> is_section c = false
                     /\ (is_paragraph c = true -> exists items, recurse c = Ok items))
      by (intros c Hin; apply Hcs; right; exact Hin).
    destruct (tagname child =? "Paragraph")%string.
    { destruct (Hp eq_refl) as [sub ->]. simpl. apply IH. exact Hrest. }
    destruct (tagname child =? "CodeBlock")%string; [apply IH; exact Hrest|].
    destruct (tagname child =? "TestBlock")%string; [apply IH; exact Hrest|].
    destruct (tagname child =? "Text")%string eqn:E1.
    { apply String.eqb_eq in E1. rewrite E1. simpl. apply IH. exact Hrest. }
    destruct (tagname child =? "Strong")%string eqn:E2.
    { apply String.eqb_eq in E2. rewrite E2. simpl. apply IH. exact Hrest. }
    destruct (tagname child =? "Emphasis")%string eqn:E3.
    { apply String.eqb_eq in E3. rewrite E3. simpl. apply IH. exact Hrest. }
    simpl. apply IH. exact Hrest.
Qed.

Lemma no_subsection_children (tag : string) (o : Options) (cs : list Node)
    (t : string) (c : Node) :
  no_subsection (mkNode tag o cs t) = true -> In c cs ->
  is_section c = false /\ (is_paragraph c = true -> no_subsection c = true).
Proof.
  simpl. induction cs as [|d cs IH]; intros H Hin; [contradiction|].
  apply andb_prop in H as [H Hcs]. apply andb_prop in H as [Hs Hp].
  destruct Hin as [->|Hin]; [|apply IH; assumption].
  split; [apply negb_true_iff; exact Hs|].
  intros P. rewrite P in Hp. exact Hp.
Qed.

(** A tree in which the traversal meets no Section below the root is
    rendered as soon as the recursion limit reaches its height. *)
Lemma _get_content_returns (limit : nat) :
  forall node, height node <= limit -> no_subsection node = true ->
               exists items, _get_content env limit node = Ok items.
Proof.
  induction limit as [|limit IH]; intros [tag o cs t] Hh Hn.
  - simpl in Hh. lia.
  - cbn [_get_content tagname options children].
    assert (Hcs : forall c, In c cs -> is_section c = false
                   /\ (is_paragraph c = true
                       -> exists items, _get_content env limit c = Ok items)).
    { intros c Hin.
      destruct (no_subsection_children tag o cs t c Hn Hin) as [Hs Hp].
      split; [exact Hs|]. intros P. apply IH; [|auto].
      pose proof (height_children tag o cs t c Hin). lia. }
    destruct (tag =? "Section")%string eqn:E.
    + apply String.eqb_eq in E. subst tag. simpl bind.
      apply for_children_returns. exact Hcs.
    + simpl bind. apply for_children_returns. exact Hcs.
Qed.

(** On such a tree a Section without a title renders as an empty
    formatted text followed by what its children render as. *)
Lemma untitled_section_returns (lang : option string) (cs : list Node)
    (t : string) (limit : nat) :
  let node := mkNode "Section" (mkOptions None lang) cs t in
  height node <= limit -> no_subsection node = true ->
  exists items, _get_content env limit node = Ok (FormattedText [] :: items).
Proof.
  intros node Hh Hn.
  destruct (_get_content_returns limit node Hh Hn) as [items E].
  destruct limit as [|limit]; [discriminate|].
  unfold node in *. cbn [_get_content tagname options children] in *.
  simpl bind in *. rewrite for_children_appends in E. rewrite for_children_appends.
  destruct (for_children env (_get_content env limit) _ cs []) as [rest|e];
    [|discriminate].
  exists rest. reflexivity.
Qed.

(** C2. On a Section "T" whose only child is a Section "U" the method
    calls itself on the Section "T" again and again: whatever the
    recursion limit, it raises [RecursionError], where the traversal
    that enters the child gives the title "T" followed by the title
    "U". *)
Theorem nested_section_recurses_on_parent (limit : nat) :
  _get_content env limit nested_sections = Raise RecursionError
  /\ _get_content_spec env (2 + limit) nested_sections
     = Ok [FormattedText [("class:title ", "T")];
           FormattedText [("class:title ", "U")]].
Proof.
  split; [|reflexivity].
  apply _get_content_subsection. reflexivity.
Qed.

(** C3. A node with a child that is a Section is never rendered: for
    every recursion limit [_get_content], and with it [render_section],
    ends in [RecursionError]. *)
Theorem render_with_subsection_never_completes
    (node : Node) (content : State) (limit : nat)
    (H : existsb is_section (children node) = true) :
  _get_content env limit node = Raise RecursionError
  /\ render_section env limit node content = Raise RecursionError.
Proof.
  assert (E : _get_content env limit node = Raise RecursionError)
    by (apply _get_content_subsection; exact H).
  split; [exact E|]. unfold render_section. rewrite E. reflexivity.
Qed.

(** C4. The Section "T" with the paragraphs "A" and "B" renders, at
    every recursion limit of at least 2, as the title "T", a separator,
    the text "A", a separator and the text "B". *)
Theorem two_paragraphs_rendering (limit : nat) :
  _get_content env (2 + limit) two_paragraphs
  = Ok [FormattedText [("class:title ", "T")];
        FormattedText [("", nl ++ nl)%string];
        FormattedText [("class:text ", "A")];
        FormattedText [("", nl ++ nl)%string];
        FormattedText [("class:text ", "B")]]
  /\ (items <- _get_content env (2 + limit) two_paragraphs ;;
      Ok (merge_formatted_text env items))
     = Ok [("class:title ", "T"); ("", (nl ++ nl)%string); ("class:text ", "A");
           ("", (nl ++ nl)%string); ("class:text ", "B")].
Proof. split; reflexivity. Qed.

(** C8. A Section without a title that has no child renders as one
    empty formatted text, but one that has a subsection is not rendered
    at all: whatever the recursion limit, [RecursionError] is raised. *)
Theorem untitled_section_with_subsection_raises (limit : nat) :
  _get_content env limit untitled_nested_sections = Raise RecursionError
  /\ _get_content env (1 + limit) (section None []) = Ok [FormattedText []].
Proof.
  split; [|reflexivity].
  apply _get_content_subsection. reflexivity.
Qed.

End RendererFacts.

Lemma render_with_subsection_never_completes_witness :
  existsb is_section (children nested_sections) = true
  /\ _get_content sample_env 1000 nested_sections = Raise RecursionError
  /\ render_section sample_env 1000 nested_sections (init ContentArea None)
     = Raise RecursionError.
Proof.
  assert (H : existsb is_section (children nested_sections) = true)
    by reflexivity.
  split; [exact H|].
  exact (render_with_subsection_never_completes
           sample_env nested_sections (init ContentArea None) 1000 H).
Defined.

(** * Properties of the indentation *)

Ltac in_list := simpl; repeat (first [left; reflexivity | right]).

Section TextFacts.

Lemma append_assoc (a b c : string) : ((a ++ b) ++ c = a ++ (b ++ c))%string.
Proof. induction a as [|x a IH]; simpl; [reflexivity|]. rewrite IH. reflexivity. Qed.

Lemma append_empty_r (a : string) : (a ++ "" = a)%string.
Proof. induction a as [|x a IH]; simpl; [reflexivity|]. rewrite IH. reflexivity. Qed.

Lemma concat_cons (x : string) (xs : list string) :
  String.concat "" (x :: xs) = (x ++ String.concat "" xs)%string.
Proof.
  destruct xs; simpl; [rewrite append_empty_r|]; reflexivity.
Qed.

Ltac each_boundary H :=
  unfold line_boundaries in H; simpl in H;
  repeat (destruct H as [H|H]; [symmetry in H|]); [..|contradiction].

(** The scan of one step, by the line ending at the beginning of the
    text. *)
Lemma splitlines_from_step (line : string) (c : ascii) (rest : string) :
  splitlines_from line (String c rest)
  = match ending_at (String c rest) with
    | Some (ending, rest') =>
        (line ++ ending)%string :: splitlines_from EmptyString rest'
    | None => splitlines_from (line ++ String c EmptyString)%string rest
    end.
Proof.
  cbn [splitlines_from ending_at].
  destruct (is_linebreak c).
  { destruct (Ascii.eqb c CR); [|reflexivity].
    destruct rest as [|d rest']; [reflexivity|].
    destruct (Ascii.eqb d LF); reflexivity. }
  destruct (Ascii.eqb c "194").
  { destruct rest as [|d rest']; [reflexivity|].
    destruct (Ascii.eqb d "133"); reflexivity. }
  destruct (Ascii.eqb c "226"); [|reflexivity].
  destruct rest as [|d [|e rest']]; try reflexivity.
  destruct (Ascii.eqb d "128" && (Ascii.eqb e "168" || Ascii.eqb e "169"));
    reflexivity.
Qed.

Lemma is_linebreak_boundary (c : ascii) :
  is_linebreak c = true ->
  In (String c EmptyString) line_boundaries /\ plain c = false.
Proof.
  destruct c as [[] [] [] [] [] [] [] []]; try discriminate; intros _;
    (split; [in_list|reflexivity]).
Qed.

(** What [ending_at] finds is a line boundary at the beginning of the
    text, and a carriage return only when no line feed follows. *)
Lemma ending_at_Some (text ending rest : string) :
  ending_at text = Some (ending, rest) ->
  text = (ending ++ rest)%string
  /\ In ending line_boundaries
  /\ (ending = utf8 [13] -> starts_with_LF rest = false).
Proof.
  destruct text as [|c text]; [discriminate|]. cbn [ending_at].
  destruct (is_linebreak c) eqn:L.
  { destruct (is_linebreak_boundary c L) as [Hin _].
    destruct (Ascii.eqb c CR) eqn:E.
    - apply Ascii.eqb_eq in E. subst c.
      destruct text as [|d text'].
      + intros [= <- <-]. split; [reflexivity|]. split; [in_list|reflexivity].
      + destruct (Ascii.eqb d LF) eqn:F.
        * apply Ascii.eqb_eq in F. subst d. intros [= <- <-].
          split; [reflexivity|]. split; [in_list|discriminate].
        * intros [= <- <-]. split; [reflexivity|]. split; [in_list|].
          intros _. exact F.
    - intros [= <- <-]. split; [reflexivity|]. split; [exact Hin|].
      intros [= ->]. discriminate. }
  destruct (Ascii.eqb c "194") eqn:E1.
  { apply Ascii.eqb_eq in E1. subst c.
    destruct text as [|d text']; [discriminate|].
    destruct (Ascii.eqb d "133") eqn:F; [|discriminate].
    apply Ascii.eqb_eq in F. subst d. intros [= <- <-].
    split; [reflexivity|]. split; [in_list|discriminate]. }
  destruct (Ascii.eqb c "226") eqn:E2; [|discriminate].
  apply Ascii.eqb_eq in E2. subst c.
  destruct text as [|d [|e text']]; try discriminate.
  destruct (Ascii.eqb d "128") eqn:F; [|discriminate].
  apply Ascii.eqb_eq in F. subst d.
  destruct (Ascii.eqb e "168") eqn:G1.
  { apply Ascii.eqb_eq in G1. subst e. intros [= <- <-].
    split; [reflexivity|]. split; [in_list|discriminate]. }
  destruct (Ascii.eqb e "169") eqn:G2; [|discriminate].
  apply Ascii.eqb_eq in G2. subst e. intros [= <- <-].
  split; [reflexivity|]. split; [in_list|discriminate].
Qed.

(** A line boundary at the beginning of a text is found, as long as it
    is not the carriage return of a carriage return and line feed. *)
Lemma ending_at_boundary (ending rest : string) :
  In ending line_boundaries ->
  (ending = utf8 [13] -> starts_with_LF rest = false) ->
  ending_at (ending ++ rest) = Some (ending, rest).
Proof.
  intros Hin Hcr. each_boundary Hin; subst ending; try reflexivity.
  specialize (Hcr eq_refl). destruct rest as [|d rest]; [reflexivity|].
  simpl in Hcr. cbn. rewrite Hcr. reflexivity.
Qed.

Lemma ending_at_boundary_found (ending rest : string) :
  In ending line_boundaries -> ending_at (ending ++ rest) <> None.
Proof.
  intros Hin. each_boundary Hin; subst ending; try discriminate.
  destruct rest as [|d rest]; [discriminate|]. cbn.
  destruct (Ascii.eqb d LF); discriminate.
Qed.

Lemma boundary_nonempty (ending : string) :
  In ending line_boundaries -> ending <> EmptyString.
Proof. intros Hin. each_boundary Hin; subst ending; discriminate. Qed.

Lemma boundary_first_byte (ending rest : string) (c : ascii) (s : string) :
  In ending line_boundaries ->
  (ending ++ rest)%string = String c s ->
  In (nat_of_ascii c) [10; 11; 12; 13; 28; 29; 30; 194; 226].
Proof.
  intros Hin. each_boundary Hin; subst ending; intros [= <- _]; in_list.
Qed.

Lemma has_line_boundary_tail (c : ascii) (s : string) :
  has_line_boundary s -> has_line_boundary (String c s).
Proof.
  intros (a & e & b & Hin & ->). exists (String c a), e, b. auto.
Qed.

Lemma has_line_boundary_prefix (e b : string) :
  In e line_boundaries -> has_line_boundary (e ++ b).
Proof. intros Hin. exists EmptyString, e, b. auto. Qed.

Ltac boundary_in_front :=
  first
    [ match goal with
      | |- has_line_boundary (String ?x ?b) =>
          exists EmptyString, (String x EmptyString), b;
          split; [solve [in_list]|reflexivity]
      end
    | match goal with
      | |- has_line_boundary (String ?x (String ?y ?b)) =>
          exists EmptyString, (String x (String y EmptyString)), b;
          split; [solve [in_list]|reflexivity]
      end
    | match goal with
      | |- has_line_boundary (String ?x (String ?y (String ?z ?b))) =>
          exists EmptyString, (String x (String y (String z EmptyString))), b;
          split; [solve [in_list]|reflexivity]
      end ].

Ltac next_byte b Heq Hin :=
  destruct b as [|? b];
  [ exfalso; simpl in Heq;
    apply (fun H => boundary_first_byte _ _ _ _ H Heq) in Hin;
    simpl in Hin; intuition discriminate
  | simpl in Heq; injection Heq as -> Heq ].

(** No line ending is found inside a body without line boundary, nor
    across its end when a line boundary follows. *)
Lemma ending_at_after_body (body ending rest : string) :
  body <> EmptyString -> ~ has_line_boundary body ->
  In ending line_boundaries ->
  ending_at (body ++ ending ++ rest) = None.
Proof.
  intros Hne Hnb Hin.
  destruct (ending_at (body ++ ending ++ rest)) as [[e' r']|] eqn:E;
    [exfalso|reflexivity].
  apply ending_at_Some in E as (Heq & Hin' & _).
  apply Hnb. clear Hnb.
  destruct body as [|c1 body]; [congruence|]. clear Hne.
  each_boundary Hin'; subst e'; simpl in Heq; injection Heq as -> Heq;
    try boundary_in_front.
  - next_byte body Heq Hin. boundary_in_front.
  - next_byte body Heq Hin. next_byte body Heq Hin. boundary_in_front.
  - next_byte body Heq Hin. next_byte body Heq Hin. boundary_in_front.
Qed.

Lemma ending_at_in_body (body : string) :
  body <> EmptyString -> ~ has_line_boundary body -> ending_at body = None.
Proof.
  intros Hne Hnb.
  destruct (ending_at body) as [[e r]|] eqn:E; [exfalso|reflexivity].
  apply ending_at_Some in E as (-> & Hin & _).
  apply Hnb. apply has_line_boundary_prefix. exact Hin.
Qed.

Lemma no_line_boundary_tail (c : ascii) (s : string) :
  ~ has_line_boundary (String c s) -> ~ has_line_boundary s.
Proof. intros H C. apply H. apply has_line_boundary_tail. exact C. Qed.

(** The scan moves a body without line boundary into the current line,
    when a line boundary or nothing follows it. *)
Lemma splitlines_from_body (body : string) :
  forall line ending rest,
    ~ has_line_boundary body -> In ending line_boundaries ->
    splitlines_from line (body ++ ending ++ rest)
    = splitlines_from (line ++ body) (ending ++ rest).
Proof.
  induction body as [|c body IH]; intros line ending rest Hnb Hin.
  - simpl. rewrite append_empty_r. reflexivity.
  - change ((String c body ++ ending ++ rest)%string)
      with (String c (body ++ ending ++ rest)).
    rewrite splitlines_from_step.
    change (String c (body ++ ending ++ rest))
      with ((String c body ++ ending ++ rest)%string).
    rewrite ending_at_after_body by (auto; discriminate).
    rewrite IH by (eauto using no_line_boundary_tail).
    rewrite append_assoc. reflexivity.
Qed.

Lemma splitlines_from_last (body : string) :
  forall line,
    ~ has_line_boundary body ->
    splitlines_from line body = splitlines_from (line ++ body) EmptyString.
Proof.
  induction body as [|c body IH]; intros line Hnb.
  - rewrite append_empty_r. reflexivity.
  - rewrite splitlines_from_step.
    rewrite ending_at_in_body by (auto; discriminate).
    rewrite IH by (eauto using no_line_boundary_tail).
    rewrite append_assoc. reflexivity.
Qed.

Lemma splitlines_from_ending (ending rest : string) :
  In ending line_boundaries ->
  (ending = utf8 [13] -> starts_with_LF rest = false) ->
  forall line,
    splitlines_from line (ending ++ rest)
    = (line ++ ending)%string :: splitlines rest.
Proof.
  intros Hin Hcr line.
  pose proof (ending_at_boundary ending rest Hin Hcr) as E.
  destruct (ending ++ rest)%string as [|c s] eqn:F; [discriminate|].
  rewrite splitlines_from_step, E. reflexivity.
Qed.

Lemma Lines_splitlines (t : string) (ls : list string) :
  Lines t ls -> splitlines t = ls.
Proof.
  induction 1 as [|body Hne Hb|body ending rest ls Hb He Hcr _ IH];
    unfold splitlines.
  - reflexivity.
  - rewrite splitlines_from_last by exact Hb. simpl.
    destruct body; [congruence|reflexivity].
  - rewrite splitlines_from_body by assumption.
    rewrite splitlines_from_ending by assumption.
    rewrite IH. reflexivity.
Qed.

Lemma Lines_concat (t : string) (ls : list string) :
  Lines t ls -> String.concat "" ls = t.
Proof.
  induction 1 as [|body Hne Hb|body ending rest ls Hb He Hcr _ IH].
  - reflexivity.
  - reflexivity.
  - rewrite concat_cons, IH, append_assoc. reflexivity.
Qed.

Lemma append_snoc_split (a : string) :
  forall (line b : string) (c : ascii),
    (line ++ String c EmptyString)%string = (a ++ b)%string ->
    b <> EmptyString ->
    exists b0, b = (b0 ++ String c EmptyString)%string
               /\ line = (a ++ b0)%string.
Proof.
  induction a as [|x a IH]; intros line b c H Hb.
  - exists line. simpl in H. auto.
  - destruct line as [|y line]; simpl in H.
    + injection H as _ H. destruct a; [simpl in H; congruence|discriminate].
    + injection H as -> H. destruct (IH line b c H Hb) as (b0 & -> & ->).
      exists b0. auto.
Qed.

(** A line in which the scan found no line ending holds no line
    boundary. *)
Lemma scanned_no_boundary (line text : string) :
  (forall a b, line = (a ++ b)%string -> b <> EmptyString ->
               ending_at (b ++ text) = None) ->
  ~ has_line_boundary line.
Proof.
  intros Hscan (a & e & b & Hin & ->).
  apply (ending_at_boundary_found e (b ++ text) Hin).
  rewrite <- append_assoc. apply (Hscan a).
  - reflexivity.
  - intros C. apply (boundary_nonempty e Hin).
    destruct e; [reflexivity|discriminate].
Qed.

Lemma ending_shortens (text ending rest : string) :
  ending_at text = Some (ending, rest) ->
  String.length rest < String.length text.
Proof.
  intros E. apply ending_at_Some in E as (-> & Hin & _).
  each_boundary Hin; subst ending; simpl; lia.
Qed.

Lemma splitlines_from_Lines (n : nat) :
  forall text line,
    String.length text <= n ->
    (forall a b, line = (a ++ b)%string -> b <> EmptyString ->
                 ending_at (b ++ text) = None) ->
    Lines (line ++ text) (splitlines_from line text).
Proof.
  induction n as [|n IH]; intros text line Hn Hscan.
  - destruct text; [|simpl in Hn; lia].
    pose proof (scanned_no_boundary line _ Hscan) as Hnb.
    simpl. rewrite append_empty_r.
    destruct line as [|x line'] eqn:E; [constructor|].
    rewrite <- E in *. apply Lines_last; congruence.
  - destruct text as [|c rest].
    { apply IH; [simpl; lia|exact Hscan]. }
    rewrite splitlines_from_step.
    destruct (ending_at (String c rest)) as [[ending rest']|] eqn:E.
    + pose proof (ending_shortens _ _ _ E) as Hlen.
      pose proof (scanned_no_boundary line _ Hscan) as Hnb.
      apply ending_at_Some in E as (Heq & Hin & Hcr). rewrite Heq.
      apply Lines_cons; try assumption.
      apply (IH rest' EmptyString).
      * simpl in Hn, Hlen. lia.
      * intros a b H. destruct a; destruct b; simpl in H; congruence.
    + replace (line ++ String c rest)%string
        with ((line ++ String c "") ++ rest)%string
        by (rewrite append_assoc; reflexivity).
      apply IH; [simpl in Hn; lia|].
      intros a b H Hb.
      destruct (append_snoc_split a line b c H Hb) as (b0 & -> & ->).
      rewrite append_assoc. simpl.
      destruct b0 as [|y b0]; [exact E|].
      apply (Hscan a); [reflexivity|discriminate].
Qed.

(** Every text is the sequence of its lines. *)
Lemma splitlines_Lines (t : string) : Lines t (splitlines t).
Proof.
  apply (splitlines_from_Lines (String.length t) t ""%string).
  - apply Nat.le_refl.
  - intros a b H. destruct a; destruct b; simpl in H; congruence.
Qed.

Lemma Lines_nonempty (t : string) (ls : list string) :
  Lines t ls -> Forall (fun line => line <> EmptyString) ls.
Proof.
  induction 1 as [|body Hne Hb|body ending rest ls Hb He Hcr _ IH];
    constructor; auto.
  pose proof (boundary_nonempty _ He).
  destruct body; simpl; [assumption|congruence].
Qed.

Lemma plain_not_boundary_start (ending rest : string) (c : ascii) (s : string) :
  plain c = true -> In ending line_boundaries ->
  (ending ++ rest)%string <> String c s.
Proof.
  intros Hp Hin Heq. apply (boundary_first_byte _ _ _ _ Hin) in Heq.
  simpl in Heq.
  repeat (destruct Heq as [Heq|Heq];
          [apply (f_equal ascii_of_nat) in Heq;
           rewrite ascii_nat_embedding in Heq; subst c; discriminate|]).
  contradiction.
Qed.

Lemma no_line_boundary_plain (p : string) :
  forall s, all_plain p = true -> ~ has_line_boundary s ->
            ~ has_line_boundary (p ++ s).
Proof.
  induction p as [|c p IH]; intros s Hp Hs; [exact Hs|].
  simpl in Hp. apply andb_prop in Hp as [Hc Hp].
  intros (a & e & b & Hin & Heq). simpl in Heq.
  destruct a as [|x a]; simpl in Heq.
  - symmetry in Heq. exact (plain_not_boundary_start e b c _ Hc Hin Heq).
  - injection Heq as _ Heq. apply (IH s Hp Hs). exists a, e, b. auto.
Qed.

Lemma starts_with_LF_append (a b : string) :
  a <> EmptyString -> starts_with_LF (a ++ b) = starts_with_LF a.
Proof. destruct a; [congruence|reflexivity]. Qed.

Lemma starts_with_LF_plain (p : string) :
  all_plain p = true -> starts_with_LF p = false.
Proof.
  destruct p as [|c p]; [reflexivity|]. simpl. intros H.
  apply andb_prop in H as [H _].
  destruct (Ascii.eqb c LF) eqn:E; [|reflexivity].
  apply Ascii.eqb_eq in E. subst c. discriminate.
Qed.

Lemma starts_with_LF_prefixed (p a : string) :
  all_plain p = true -> starts_with_LF a = false ->
  starts_with_LF (p ++ a) = false.
Proof.
  intros Hp Ha. destruct p as [|c p]; [exact Ha|].
  rewrite starts_with_LF_append by congruence.
  apply starts_with_LF_plain. exact Hp.
Qed.

Section Prefix.

Variable prefix : string.
Hypothesis prefix_plain : all_plain prefix = true.

Lemma starts_with_LF_indent_line (line rest : string) :
  line <> EmptyString ->
  starts_with_LF line = false ->
  starts_with_LF (indent_line prefix line ++ rest) = false.
Proof.
  intros Hne H. unfold indent_line.
  destruct (negb (isspace line)).
  - rewrite append_assoc. apply starts_with_LF_prefixed; [assumption|].
    rewrite starts_with_LF_append; assumption.
  - rewrite starts_with_LF_append; assumption.
Qed.

Lemma starts_with_LF_indented (t : string) (ls : list string) :
  Lines t ls -> starts_with_LF t = false ->
  starts_with_LF (String.concat "" (map (indent_line prefix) ls)) = false.
Proof.
  intros [|body Hne Hb|body ending rest ls' Hb He Hcr HL] H.
  - reflexivity.
  - simpl. rewrite <- (append_empty_r (indent_line prefix body)).
    apply starts_with_LF_indent_line; assumption.
  - cbn [map]. rewrite concat_cons.
    assert (Hne : (body ++ ending)%string <> EmptyString).
    { pose proof (boundary_nonempty _ He).
      destruct body; simpl; [assumption|congruence]. }
    apply starts_with_LF_indent_line; [exact Hne|].
    rewrite <- append_assoc in H.
    rewrite starts_with_LF_append in H; assumption.
Qed.

Lemma indent_line_body (body ending : string) :
  ~ has_line_boundary body ->
  exists body', indent_line prefix (body ++ ending) = (body' ++ ending)%string
                /\ ~ has_line_boundary body'
                /\ (body <> EmptyString -> body' <> EmptyString).
Proof.
  intros Hb. unfold indent_line. destruct (negb (isspace (body ++ ending))).
  - exists (prefix ++ body)%string. rewrite append_assoc. split; [reflexivity|].
    split.
    + apply no_line_boundary_plain; assumption.
    + intros Hne E. destruct prefix; simpl in E; [auto|discriminate].
  - exists body. auto.
Qed.

(** Indenting keeps the line structure. *)
Lemma Lines_indent (t : string) (ls : list string) :
  Lines t ls ->
  Lines (String.concat "" (map (indent_line prefix) ls))
        (map (indent_line prefix) ls).
Proof.
  induction 1 as [|body Hne Hb|body ending rest ls Hb He Hcr HL IH].
  - constructor.
  - simpl.
    destruct (indent_line_body body "" Hb) as (body' & E & Hb' & Hne').
    rewrite !append_empty_r in E. rewrite E.
    apply Lines_last; auto.
  - cbn [map]. rewrite concat_cons.
    destruct (indent_line_body body ending Hb) as (body' & E & Hb' & _).
    rewrite E, append_assoc.
    apply Lines_cons; [exact Hb'|exact He| |exact IH].
    intros Hc. apply (starts_with_LF_indented rest ls); auto.
Qed.

Lemma splitlines_indent (t : string) :
  splitlines (indent t prefix) = map (indent_line prefix) (splitlines t).
Proof.
  apply Lines_splitlines. unfold indent. apply Lines_indent with (t := t).
  apply splitlines_Lines.
Qed.

End Prefix.

(** [isspace] and [Blank] say the same. *)
Lemma all_space_whitespace (w s : string) :
  In w whitespace -> all_space (w ++ s) = all_space s /\ w <> EmptyString.
Proof.
  intros Hin. unfold whitespace in Hin. simpl in Hin.
  repeat (destruct Hin as [Hin|Hin];
          [subst w; split; [reflexivity|discriminate]|]).
  contradiction.
Qed.

Lemma Blank_all_space (s : string) :
  Blank s -> all_space s = true /\ s <> EmptyString.
Proof.
  induction 1 as [w Hin|w s Hin _ [IH _]].
  - destruct (all_space_whitespace w "" Hin) as [E Hne].
    rewrite append_empty_r in E. rewrite E. auto.
  - destruct (all_space_whitespace w s Hin) as [E Hne].
    rewrite E. split; [exact IH|].
    destruct w; [congruence|discriminate].
Qed.

Lemma Blank_front (w rest : string) :
  In w whitespace -> rest = EmptyString \/ Blank rest -> Blank (w ++ rest).
Proof.
  intros Hin [->|H].
  - rewrite append_empty_r. apply Blank_one. exact Hin.
  - apply Blank_more; assumption.
Qed.

Lemma is_space_whitespace (c : ascii) :
  is_space c = true -> In (String c EmptyString) whitespace.
Proof.
  destruct c as [[] [] [] [] [] [] [] []]; try discriminate; intros _; in_list.
Qed.

Ltac byte_is c x :=
  let E := fresh "E" in
  destruct (Ascii.eqb c x) eqn:E;
  [apply Ascii.eqb_eq in E; subst c|].

Lemma all_space_Blank (n : nat) :
  forall s, String.length s <= n -> all_space s = true ->
            s = EmptyString \/ Blank s.
Proof.
  induction n as [|n IH]; intros s Hn H.
  { destruct s; [auto|simpl in Hn; lia]. }
  destruct s as [|c rest]; [auto|]. right. simpl in Hn.
  cbn [all_space] in H.
  destruct (is_space c) eqn:S1.
  { apply (Blank_front (String c "") rest).
    - apply is_space_whitespace. exact S1.
    - apply IH; [lia|exact H]. }
  byte_is c "194"%char.
  { destruct rest as [|d rest]; [discriminate|].
    apply andb_prop in H as [Hd H]. simpl in Hn.
    assert (Hrest : rest = EmptyString \/ Blank rest) by (apply IH; [lia|exact H]).
    byte_is d "133"%char.
    { apply (Blank_front (utf8 [194; 133]) rest); [in_list|exact Hrest]. }
    byte_is d "160"%char; [|discriminate].
    apply (Blank_front (utf8 [194; 160]) rest); [in_list|exact Hrest]. }
  byte_is c "225"%char.
  { destruct rest as [|d [|e rest]]; try discriminate.
    apply andb_prop in H as [Hd H]. apply andb_prop in Hd as [Hd He].
    apply Ascii.eqb_eq in Hd, He. subst d e. simpl in Hn.
    apply (Blank_front (utf8 [225; 154; 128]) rest); [in_list|].
    apply IH; [lia|exact H]. }
  byte_is c "226"%char.
  { destruct rest as [|d [|e rest]]; try discriminate.
    apply andb_prop in H as [Hd H]. simpl in Hn.
    assert (Hrest : rest = EmptyString \/ Blank rest) by (apply IH; [lia|exact H]).
    byte_is d "128"%char.
    { destruct e as [[] [] [] [] [] [] [] []]; try discriminate;
        match goal with
        | |- Blank (String ?x (String ?y (String ?z rest))) =>
            apply (Blank_front (String x (String y (String z ""))) rest);
            [in_list|exact Hrest]
        end. }
    byte_is d "129"%char; [|discriminate].
    destruct e as [[] [] [] [] [] [] [] []]; try discriminate.
    apply (Blank_front (utf8 [226; 129; 159]) rest); [in_list|exact Hrest]. }
  byte_is c "227"%char; [|discriminate].
  destruct rest as [|d [|e rest]]; try discriminate.
  apply andb_prop in H as [Hd H]. apply andb_prop in Hd as [Hd He].
  apply Ascii.eqb_eq in Hd, He. subst d e. simpl in Hn.
  apply (Blank_front (utf8 [227; 128; 128]) rest); [in_list|].
  apply IH; [lia|exact H].
Qed.

Lemma isspace_Blank (s : string) : isspace s = true <-> Blank s.
Proof.
  split.
  - intros H. destruct s as [|c s]; [discriminate|].
    destruct (all_space_Blank (String.length (String c s)) (String c s)
                (Nat.le_refl _) H) as [C|B]; [discriminate|exact B].
  - intros B. destruct (Blank_all_space s B) as [H Hne].
    destruct s; [congruence|exact H].
Qed.

(** Every line is moved by two columns unless it is blank. *)
Lemma indent_lines_TwoColumns (ls : list string) :
  Forall2 TwoColumns ls (map (indent_line "  ") ls).
Proof.
  induction ls as [|line ls IH]; constructor; [|exact IH].
  unfold indent_line. destruct (isspace line) eqn:E; simpl.
  - apply TwoColumns_blank. apply isspace_Blank. exact E.
  - apply TwoColumns_other. intros B. apply isspace_Blank in B. congruence.
Qed.

End TextFacts.

(** * Properties of the code blocks *)

Section CodeBlockFacts.

Variable env : Env.

(** C5. The code of a block is its text indented by two columns: the
    text is the sequence of its lines, every line that is not made of
    whitespace characters only is moved two columns to the right, the
    blank ones stay, and the code is the sequence of the lines so
    obtained.  With a lexer for the language of the block the result is
    the one item made of the tokens that pygments yields on that code,
    each styled by the class of its token type; without a lexer it is
    one formatted text with the single fragment of style "class:text "
    that holds the code. *)
Theorem code_block_rendering (node : Node) :
  let code := indent (text node) "  " in
  (exists lines shifted : list string,
      Lines (text node) lines
      /\ Forall2 TwoColumns lines shifted
      /\ Lines code shifted
      /\ code = String.concat "" shifted)
  /\ match get_lexer env (language (options node)) with
     | Some lexer =>
         _parse_code_block env node = [PygmentsTokens (pygments_lex env code lexer)]
         /\ merge_formatted_text env (_parse_code_block env node)
            = map (fun '(token, value) =>
                     (("class:" ++ pygments_token_to_classname env token)%string,
                      value))
                  (pygments_lex env code lexer)
     | None =>
         _parse_code_block env node = [FormattedText [("class:text ", code)]]
         /\ merge_formatted_text env (_parse_code_block env node)
            = [("class:text ", code)]
     end.
Proof.
  intros code. split.
  - exists (splitlines (text node)),
           (map (indent_line "  ") (splitlines (text node))).
    pose proof (splitlines_Lines (text node)) as HL.
    split; [exact HL|]. split; [apply indent_lines_TwoColumns|].
    split; [|reflexivity].
    apply (Lines_indent "  " eq_refl (text node)). exact HL.
  - unfold _parse_code_block. fold code.
    destruct (get_lexer env (language (options node))) as [lexer|]; split;
      try reflexivity.
    simpl. rewrite app_nil_r. reflexivity.
Qed.

End CodeBlockFacts.

(** * Properties of the notifications *)

Section NotifyFacts.

Variable env : Env.
Variable elapse : nat -> Q.
Hypothesis elapse_nonneg : forall n, (0 <= elapse n)%Q.

Lemma run_loop_idle (n : nat) (l : Loop) :
  idle l = true -> run_loop elapse n l = l.
Proof. intros H. destruct n; simpl; [|rewrite H]; reflexivity. Qed.

Lemma run_loop_busy (n : nat) (l : Loop) :
  idle l = false ->
  run_loop elapse (S n) l = run_loop elapse n (run_once elapse l).
Proof. intros H. simpl. rewrite H. reflexivity. Qed.

(** An iteration with one ready task and no timer resumes that task. *)
Lemma run_once_ready (t : Q) (c : Coroutine) (s : State)
    (tl : list (Q * State)) (i : nat) :
  run_once elapse (mkLoop t [c] [] s tl i)
  = resume c (mkLoop (t + elapse i)%Q [] [] s tl (S i)).
Proof. reflexivity. Qed.

(** An iteration with nothing ready and one timer waits until the timer
    is due and resumes its task. *)
Lemma run_once_timer (t when : Q) (c : Coroutine) (s : State)
    (tl : list (Q * State)) (i : nat) :
  let t' := ((if Qle_bool when t then t else when) + elapse i)%Q in
  run_once elapse (mkLoop t [] [(when, c)] s tl i)
  = resume c (mkLoop t' [] [] s tl (S i))
  /\ (when <= t')%Q /\ (t <= t')%Q.
Proof.
  intros t'.
  assert (H : (when <= t')%Q /\ (t <= t')%Q).
  { unfold t'. pose proof (elapse_nonneg i) as He.
    destruct (Qle_bool when t) eqn:E.
    - apply Qle_bool_iff in E. split; lra.
    - assert (~ (when <= t)%Q) by (intros C; apply Qle_bool_iff in C; congruence).
      split; lra. }
  split; [|exact H].
  destruct H as [H _]. apply Qle_bool_iff in H.
  unfold run_once. cbn [ready scheduled now iterations filter fst].
  fold t'. rewrite H. reflexivity.
Qed.

(** C9. A single [notify(text, delay)] on an otherwise idle loop runs to
    completion within three iterations: the status bar is updated with
    [text] at a time [t1] at least a tenth of a time unit after the
    call, and with the empty string at a time [t2] at least [delay]
    after [t1]; each update appends its status to the history, shows it
    as the only page and is followed by one forced redraw. *)
Theorem notify_sequence (text : string) (delay t0 : Q) (s0 : State) (i0 : nat) :
  let s1 := update_status env text s0 in
  let s2 := update_status env "" s1 in
  exists t1 t2 : Q,
    (forall n, 3 <= n ->
       let l := run_loop elapse n
                  (notify env text delay (mkLoop t0 [] [] s0 [] i0)) in
       idle l = true /\ bar l = s2 /\ timeline l = [(t1, s1); (t2, s2)])
    /\ (t0 + (1 # 10) <= t1)%Q
    /\ (t1 + delay <= t2)%Q
    /\ history s1 = history s0 ++ [text]
    /\ history s2 = history s0 ++ [text; ""]
    /\ calls s1 = calls s0 ++ [Invalidate]
    /\ calls s2 = calls s0 ++ [Invalidate; Invalidate]
    /\ pages s1 = [_get_status_area text]
    /\ pages s2 = [_get_status_area ""].
Proof.
  intros s1 s2.
  set (ta := (t0 + elapse i0)%Q).
  set (w1 := (ta + (1 # 10))%Q).
  set (t1 := ((if Qle_bool w1 ta then ta else w1) + elapse (S i0))%Q).
  set (k2 := Exec (update_status env "") Return).
  set (k1 := Exec (update_status env text) (AwaitSleep delay k2)).
  set (l0 := notify env text delay (mkLoop t0 [] [] s0 [] i0)).
  assert (E1 : run_once elapse l0 = mkLoop ta [] [(w1, k1)] s0 [] (S i0))
    by reflexivity.
  destruct (run_once_timer ta w1 k1 s0 [] (S i0)) as (E2 & Hw1 & _).
  fold t1 in E2, Hw1.
  assert (Ha : (t0 <= ta)%Q)
    by (unfold ta; pose proof (elapse_nonneg i0); lra).
  assert (Hfacts : history s1 = history s0 ++ [text]
                   /\ history s2 = history s0 ++ [text; ""]
                   /\ calls s1 = calls s0 ++ [Invalidate]
                   /\ calls s2 = calls s0 ++ [Invalidate; Invalidate]
                   /\ pages s1 = [_get_status_area text]
                   /\ pages s2 = [_get_status_area ""]).
  { unfold s2, s1, update_status; simpl. rewrite <- !app_assoc. repeat split. }
  destruct (Qle_bool delay 0) eqn:D.
  - (* the second sleep only yields to the loop *)
    set (t2 := (t1 + elapse (S (S i0)))%Q).
    assert (E2' : run_once elapse (mkLoop ta [] [(w1, k1)] s0 [] (S i0))
                  = mkLoop t1 [k2] [] s1 [(t1, s1)] (S (S i0))).
    { rewrite E2. unfold k1. cbn [resume]. rewrite D. reflexivity. }
    exists t1, t2. split; [|split; [|split]].
    + intros n Hn. destruct n as [|[|[|n]]]; try lia.
      rewrite run_loop_busy by reflexivity. rewrite E1.
      rewrite run_loop_busy by reflexivity. rewrite E2'.
      rewrite run_loop_busy by reflexivity. rewrite run_once_ready.
      rewrite run_loop_idle by reflexivity.
      repeat split.
    + unfold w1 in Hw1. lra.
    + apply Qle_bool_iff in D. unfold t2.
      pose proof (elapse_nonneg (S (S i0))). lra.
    + exact Hfacts.
  - (* the second sleep sets a timer *)
    set (w2 := (t1 + delay)%Q).
    set (t2 := ((if Qle_bool w2 t1 then t1 else w2) + elapse (S (S i0)))%Q).
    assert (E2' : run_once elapse (mkLoop ta [] [(w1, k1)] s0 [] (S i0))
                  = mkLoop t1 [] [(w2, k2)] s1 [(t1, s1)] (S (S i0))).
    { rewrite E2. unfold k1. cbn [resume]. rewrite D. reflexivity. }
    destruct (run_once_timer t1 w2 k2 s1 [(t1, s1)] (S (S i0))) as (E3 & Hw2 & _).
    fold t2 in E3, Hw2.
    exists t1, t2. split; [|split; [|split]].
    + intros n Hn. destruct n as [|[|[|n]]]; try lia.
      rewrite run_loop_busy by reflexivity. rewrite E1.
      rewrite run_loop_busy by reflexivity. rewrite E2'.
      rewrite run_loop_busy by reflexivity. rewrite E3.
      rewrite run_loop_idle by reflexivity.
      repeat split.
    + unfold w1 in Hw1. lra.
    + exact Hw2.
    + exact Hfacts.
Qed.

End NotifyFacts.

Lemma notify_sequence_witness :
  (forall n : nat, (0 <= (fun _ => 0) n)%Q)
  /\ exists t1 t2 : Q,
       timeline (run_loop (fun _ => 0%Q) 3
                   (notify sample_env "saved" (3 # 2)
                      (mkLoop 0 [] [] (init StatusBar None) [] 0)))
       = [(t1, update_status sample_env "saved" (init StatusBar None));
          (t2, update_status sample_env ""
                 (update_status sample_env "saved" (init StatusBar None)))]
       /\ (0 + (1 # 10) <= t1)%Q /\ (t1 + (3 # 2) <= t2)%Q.
Proof.
  assert (H : forall n : nat, (0 <= (fun _ => 0) n)%Q) by (intros n; apply Qle_refl).
  split; [exact H|].
  destruct (notify_sequence sample_env (fun _ => 0%Q) H "saved" (3 # 2) 0
              (init StatusBar None) 0)
    as (t1 & t2 & Hrun & H1 & H2 & _).
  exists t1, t2. split; [|split; assumption].
  exact (proj2 (proj2 (Hrun 3 (le_n 3)))).
Defined.

(** * Further properties of the navigation stack *)

Section StackLaws.

Variable env : Env.

Lemma cls_WindowContainer_pop (s s' : State) :
  WindowContainer_pop env s = Ok s' -> cls s' = cls s.
Proof.
  rewrite WindowContainer_pop_eq. intros [= <-].
  destruct (depth s <=? 1); [reflexivity|]. rewrite cls_focus. reflexivity.
Qed.

Lemma pages_pop (s : State) :
  exists s', pop env s = Ok s'
             /\ cls s' = cls s
             /\ pages s' = (if depth s <=? 1 then pages s else removelast (pages s)).
Proof.
  unfold pop. destruct (cls s) eqn:C;
    try (rewrite WindowContainer_pop_eq; eexists; split; [reflexivity|];
         destruct (depth s <=? 1); rewrite ?cls_focus, ?pages_focus; auto).
  rewrite SidebarMenu_pop_eq. eexists; split; [reflexivity|].
  destruct (depth s <=? 1); [auto|].
  destruct (depth s <=? 2); unfold set_title; simpl;
    rewrite ?cls_focus, ?pages_focus; auto.
Qed.




(** X3. The layout is asked for its focusable windows when the pushed view
    is already on the stack; the first of them, if any, gets the focus,
    otherwise the focus stays where it was. *)
Theorem push_focuses_first_focusable (s : State) (v : View) :
  focused (push env v s)
  = match get_focusable_windows env (pages s ++ [v]) with
    | window :: _ => Some window
    | [] => focused s
    end
  /\ calls (push env v s)
     = calls s ++ GetFocusableWindows
         :: match get_focusable_windows env (pages s ++ [v]) with
            | window :: _ => [LayoutFocus window]
            | [] => []
            end.
Proof.
  unfold push, focus; simpl.
  destruct (get_focusable_windows env (pages s ++ [v])); simpl.
  - split; reflexivity.
  - rewrite <- app_assoc. split; reflexivity.
Qed.

Lemma run_snoc (ops : list Op) (o : Op) (s : State) :
  run env (ops ++ [o]) s = (s' <- run env ops s ;; step env o s').
Proof.
  rewrite run_app. destruct (run env ops s); simpl; [|reflexivity].
  destruct (step env o a); reflexivity.
Qed.

Lemma repeat_snoc {A : Type} (x : A) (n : nat) :
  repeat x (S n) = repeat x n ++ [x].
Proof. induction n as [|n IH]; simpl; [reflexivity|]. rewrite <- IH. reflexivity. Qed.

(** X4. Pushing any views on a stack that is not empty and popping as many
    times gives the pages back. *)
Theorem pushes_then_pops_restore_pages (vs : list View) :
  forall s, 1 <= depth s ->
  exists s', run env (map Push vs ++ repeat Pop (List.length vs)) s = Ok s'
             /\ pages s' = pages s /\ cls s' = cls s.
Proof.
  induction vs as [|v vs IH]; intros s H.
  - exists s. repeat split.
  - cbn [map List.length]. rewrite repeat_snoc, <- app_comm_cons, app_assoc.
    cbn [run step]. cbn [bind]. rewrite run_snoc.
    destruct (IH (push env v s)) as (s1 & -> & P1 & C1).
    { rewrite depth_push. lia. }
    cbn [bind step].
    destruct (pages_pop s1) as (s2 & -> & C2 & P2).
    exists s2. split; [reflexivity|].
    assert (Pp : pages (push env v s) = pages s ++ [v])
      by (unfold push; rewrite pages_focus; reflexivity).
    split.
    + rewrite P2. unfold depth. rewrite P1, Pp, length_app. simpl.
      unfold depth in H.
      replace (List.length (pages s) + 1 <=? 1) with false
        by (symmetry; apply Nat.leb_gt; lia).
      apply removelast_last.
    + rewrite C2, C1. unfold push. rewrite cls_focus. reflexivity.
Qed.

(** X5. Pushes and pops never remove or replace the bottom page. *)
Theorem bottom_page_survives_pushes_and_pops (ops : list Op) :
  forall (s : State) (v : View) (rest : list View),
    existsb is_reset ops = false ->
    pages s = v :: rest ->
    exists s' rest', run env ops s = Ok s' /\ pages s' = v :: rest'.
Proof.
  induction ops as [|o ops IH]; intros s v rest Hops Hp.
  - exists s, rest. split; [reflexivity|exact Hp].
  - simpl in Hops. apply orb_false_iff in Hops as [Ho Hops].
    destruct o as [w| |w]; [| |discriminate]; cbn [run step].
    + cbn [bind]. apply (IH (push env w s) v (rest ++ [w])); [exact Hops|].
      unfold push. rewrite pages_focus; simpl. rewrite Hp. reflexivity.
    + destruct (pages_pop s) as (s1 & -> & _ & P1). cbn [bind].
      destruct (depth s <=? 1) eqn:D.
      * apply (IH s1 v rest); [exact Hops|congruence].
      * apply Nat.leb_gt in D. unfold depth in D. rewrite Hp in D, P1.
        destruct rest as [|u rest]; [simpl in D; lia|].
        apply (IH s1 v (removelast (u :: rest))); [exact Hops|exact P1].
Qed.

(** X6. The first view pushed on an empty stack stays: however many pops
    follow, it is the only page. *)
Theorem first_pushed_view_stays (n : nat) (s : State) (v : View) :
  pages s = [] ->
  exists s', run env (Push v :: repeat Pop n) s = Ok s' /\ pages s' = [v].
Proof.
  intros Hp. cbn [run step bind].
  assert (P : pages (push env v s) = [v])
    by (unfold push; rewrite pages_focus; simpl; rewrite Hp; reflexivity).
  generalize dependent (push env v s). clear Hp s.
  induction n as [|n IH]; intros s P.
  - exists s. split; [reflexivity|exact P].
  - cbn [repeat run step].
    destruct (pages_pop s) as (s1 & -> & _ & P1). cbn [bind].
    apply IH. rewrite P1. unfold depth. rewrite P. reflexivity.
Qed.

(** X7. Popping [n] times a stack of depth [d] leaves [max 1 (d - n)] pages,
    and none when the stack was empty. *)
Theorem pops_floor_at_one_page (n : nat) :
  forall s, exists s',
    run env (repeat Pop n) s = Ok s'
    /\ depth s' = (if depth s =? 0 then 0 else Nat.max 1 (depth s - n)).
Proof.
  induction n as [|n IH]; intros s.
  - exists s. split; [reflexivity|].
    destruct (depth s) as [|d]; simpl; lia.
  - cbn [repeat run step].
    destruct (depth_pop env s) as (s1 & -> & D1). cbn [bind].
    destruct (IH s1) as (s2 & -> & D2). exists s2. split; [reflexivity|].
    rewrite D2, D1.
    destruct (depth s) as [|[|d]]; cbn [Nat.leb Nat.eqb]; try reflexivity.
    lia.
Qed.

(** X8. After [SidebarMenu.pop] the title has been reset exactly when the
    back button is hidden. *)
Theorem title_reset_iff_back_button_hidden (s : State) :
  exists s', SidebarMenu_pop env s = Ok s'
             /\ count_calls SetTitle s'
                = count_calls SetTitle s
                  + (if back_button_visible s' then 0 else 1).
Proof.
  rewrite SidebarMenu_pop_eq. eexists; split; [reflexivity|].
  unfold back_button_visible.
  destruct (depth s <=? 1) eqn:E1.
  - unfold set_title. rewrite count_calls_call. simpl.
    apply Nat.leb_le in E1. unfold depth in E1.
    replace (1 <? List.length (pages s)) with false
      by (symmetry; apply Nat.ltb_ge; lia).
    reflexivity.
  - apply Nat.leb_gt in E1. unfold depth in E1.
    destruct (depth s <=? 2) eqn:E2; unfold set_title; simpl;
      rewrite pages_focus; simpl; rewrite length_removelast_pages.
    + apply Nat.leb_le in E2. unfold depth in E2.
      replace (1 <? List.length (pages s) - 1) with false
        by (symmetry; apply Nat.ltb_ge; lia).
      fold (call SetTitle (focus env (set_pages (removelast (pages s)) s))).
      rewrite count_calls_call, count_SetTitle_focus. reflexivity.
    + apply Nat.leb_gt in E2. unfold depth in E2.
      replace (1 <? List.length (pages s) - 1) with true
        by (symmetry; apply Nat.ltb_lt; lia).
      rewrite count_SetTitle_focus, count_calls_set_pages. lia.
Qed.

End StackLaws.

Lemma pushes_then_pops_restore_pages_witness :
  1 <= depth root_menu
  /\ exists s',
       run sample_env (map Push [Widget 2; Widget 3] ++ repeat Pop 2) root_menu
       = Ok s'
       /\ pages s' = pages root_menu /\ cls s' = cls root_menu.
Proof.
  assert (H : 1 <= depth root_menu) by exact (le_n 1).
  split; [exact H|].
  exact (pushes_then_pops_restore_pages sample_env [Widget 2; Widget 3] root_menu H).
Defined.

Lemma bottom_page_survives_pushes_and_pops_witness :
  existsb is_reset [Pop; Push (Widget 2); Pop; Pop] = false
  /\ pages root_menu = [Widget 1]
  /\ exists s' rest',
       run sample_env [Pop; Push (Widget 2); Pop; Pop] root_menu = Ok s'
       /\ pages s' = Widget 1 :: rest'.
Proof.
  split; [reflexivity|]. split; [reflexivity|].
  exact (bottom_page_survives_pushes_and_pops sample_env
           [Pop; Push (Widget 2); Pop; Pop] root_menu (Widget 1) []
           eq_refl eq_refl).
Defined.

Lemma first_pushed_view_stays_witness :
  pages (init SidebarMenu None) = []
  /\ exists s',
       run sample_env (Push (Widget 5) :: repeat Pop 3) (init SidebarMenu None)
       = Ok s'
       /\ pages s' = [Widget 5].
Proof.
  split; [reflexivity|].
  exact (first_pushed_view_stays sample_env 3 (init SidebarMenu None) (Widget 5)
           eq_refl).
Defined.

(** * Further properties of the renderer *)

Section RendererLaws.

Variable env : Env.

Lemma for_children_app
    (recurse : Node -> result (list AnyFormattedText)) (node : Node)
    (cs1 cs2 : list Node) :
  forall content,
    for_children env recurse node (cs1 ++ cs2) content
    = (c <- for_children env recurse node cs1 content ;;
       for_children env recurse node cs2 c).
Proof.
  induction cs1 as [|child cs1 IH]; intros content; [reflexivity|].
  cbn [app for_children].
  match goal with
  | |- bind ?r _ = _ => destruct r as [c|e]; cbn [bind]; [apply IH|reflexivity]
  end.
Qed.

(** The loop looks at the node itself only at a child that is a
    Section, and at [recurse] only at Sections and Paragraphs. *)
Lemma for_children_ext
    (recurse recurse' : Node -> result (list AnyFormattedText))
    (node node' : Node) :
  forall cs content,
    existsb is_section cs = false ->
    (forall c, In c cs -> is_paragraph c = true -> recurse c = recurse' c) ->
    for_children env recurse node cs content
    = for_children env recurse' node' cs content.
Proof.
  induction cs as [|child cs IH]; intros content Hs Hp; [reflexivity|].
  cbn [existsb] in Hs. apply orb_false_iff in Hs as [Hc Hs].
  assert (Hp' : forall c, In c cs -> is_paragraph c = true -> recurse c = recurse' c)
    by (intros c Hin; apply Hp; right; exact Hin).
  pose proof (Hp child (or_introl eq_refl)) as Hchild.
  unfold is_section in Hc. unfold is_paragraph in Hchild.
  cbn [for_children]. rewrite Hc.
  destruct (tagname child =? "Paragraph")%string.
  - rewrite <- (Hchild eq_refl).
    destruct (recurse child); cbn [bind]; [apply IH; assumption|reflexivity].
  - match goal with
    | |- bind ?r _ = _ => destruct r as [c|e]; cbn [bind];
                          [apply IH; assumption|reflexivity]
    end.
Qed.

Lemma existsb_is_section_app (cs1 cs2 : list Node) :
  existsb is_section (cs1 ++ cs2)
  = existsb is_section cs1 || existsb is_section cs2.
Proof. apply existsb_app. Qed.

(** What the method makes of the node before it enters the loop. *)
Lemma _get_content_S (limit : nat) (tag : string) (o : Options)
    (cs : list Node) (t : string) :
  _get_content env (S limit) (mkNode tag o cs t)
  = for_children env (_get_content env limit) (mkNode tag o cs t) cs
      (if (tag =? "Section")%string
       then [FormattedText (to_formatted_text (title o) "class:title")]
       else []).
Proof.
  cbn [_get_content tagname options children].
  destruct (tag =? "Section")%string eqn:E; [|reflexivity].
  apply String.eqb_eq in E. subst tag. reflexivity.
Qed.

(** Rendering replaces one child by another without a change of the
    result when neither is a Section and both contribute the same to
    the loop. *)
Lemma _get_content_replace_children (limit : nat) (tag : string) (o : Options)
    (cs1 mid mid' cs2 : list Node) (t : string) :
  existsb is_section mid = false -> existsb is_section mid' = false ->
  (forall recurse node content,
     for_children env recurse node mid content
     = for_children env recurse node mid' content) ->
  _get_content env limit (mkNode tag o (cs1 ++ mid ++ cs2) t)
  = _get_content env limit (mkNode tag o (cs1 ++ mid' ++ cs2) t).
Proof.
  intros Hm Hm' Hsame. destruct limit as [|limit]; [reflexivity|].
  destruct (existsb is_section (cs1 ++ cs2)) eqn:Hs.
  - rewrite !_get_content_subsection; [reflexivity| |]; cbn [children];
      rewrite existsb_is_section_app in *; rewrite existsb_is_section_app;
      destruct (existsb is_section cs1); simpl in *;
      rewrite ?Hs, ?orb_true_r; reflexivity.
  - rewrite existsb_is_section_app in Hs. apply orb_false_iff in Hs as [H1 H2].
    rewrite !_get_content_S.
    set (content := if (tag =? "Section")%string then _ else _).
    rewrite !for_children_app.
    rewrite (for_children_ext (_get_content env limit) (_get_content env limit)
               (mkNode tag o (cs1 ++ mid ++ cs2) t)
               (mkNode tag o (cs1 ++ mid' ++ cs2) t) cs1 content H1)
      by reflexivity.
    destruct (for_children env _ _ cs1 content) as [c1|e]; cbn [bind];
      [|reflexivity].
    rewrite !for_children_app, Hsame.
    rewrite (for_children_ext (_get_content env limit) (_get_content env limit)
               (mkNode tag o (cs1 ++ mid ++ cs2) t)
               (mkNode tag o (cs1 ++ mid' ++ cs2) t) mid' c1 Hm')
      by reflexivity.
    destruct (for_children env _ _ mid' c1) as [c2|e]; cbn [bind];
      [|reflexivity].
    apply for_children_ext; [exact H2|reflexivity].
Qed.

(** X9. Neither the lookup of a style nor anything else fails in the
    traversal: the only exception that [_get_content] and
    [render_section] can raise, whatever the tags of the tree, is
    [RecursionError]. *)
Theorem render_raises_only_RecursionError
    (limit : nat) (node : Node) (content : State) (e : exn) :
  (_get_content env limit node = Raise e -> e = RecursionError)
  /\ (render_section env limit node content = Raise e -> e = RecursionError).
Proof.
  pose proof (_get_content_only_RecursionError env limit node) as H.
  unfold render_section.
  destruct (_get_content env limit node) as [items|e']; cbn [bind].
  - split; discriminate.
  - simpl in H. subst e'. split; intros [= <-]; reflexivity.
Qed.

Lemma for_children_mono
    (recurse recurse' : Node -> result (list AnyFormattedText)) (node : Node) :
  (forall n items, recurse n = Ok items -> recurse' n = Ok items) ->
  forall cs content items,
    for_children env recurse node cs content = Ok items ->
    for_children env recurse' node cs content = Ok items.
Proof.
  intros Hrec. induction cs as [|child cs IH]; intros content items;
    [trivial|].
  cbn [for_children].
  destruct (tagname child =? "Section")%string.
  { destruct (recurse node) as [sub|e] eqn:E; cbn [bind]; [|discriminate].
    rewrite (Hrec _ _ E). cbn [bind]. apply IH. }
  destruct (tagname child =? "Paragraph")%string.
  { destruct (recurse child) as [sub|e] eqn:E; cbn [bind]; [|discriminate].
    rewrite (Hrec _ _ E). cbn [bind]. apply IH. }
  match goal with
  | |- bind ?r _ = _ -> _ => destruct r as [c|e]; cbn [bind];
                             [apply IH|discriminate]
  end.
Qed.

(** X10. A rendering that succeeds at a recursion limit is the rendering at
    every larger limit. *)
Theorem _get_content_limit_monotone (limit : nat) :
  forall (limit' : nat) (node : Node) (items : list AnyFormattedText),
    limit <= limit' ->
    _get_content env limit node = Ok items ->
    _get_content env limit' node = Ok items.
Proof.
  induction limit as [|limit IH]; intros limit' node items Hle H;
    [discriminate|].
  destruct limit' as [|limit']; [lia|].
  destruct node as [tag o cs t]. rewrite _get_content_S in *.
  revert H. apply for_children_mono.
  intros n sub. apply IH. lia.
Qed.

(** X11. A child with a tag that the traversal does not know is ignored:
    the rendering is that of the node without this child. *)
Theorem unknown_child_is_ignored (limit : nat) (tag : string) (o : Options)
    (cs1 cs2 : list Node) (child : Node) (t : string) :
  is_known_tag (tagname child) = false ->
  _get_content env limit (mkNode tag o (cs1 ++ child :: cs2) t)
  = _get_content env limit (mkNode tag o (cs1 ++ cs2) t).
Proof.
  intros H. unfold is_known_tag in H.
  repeat (apply orb_false_iff in H as [H ?]).
  apply (_get_content_replace_children limit tag o cs1 [child] [] cs2 t).
  - cbn [existsb]. unfold is_section. rewrite H. reflexivity.
  - reflexivity.
  - intros recurse node content. cbn [for_children].
    repeat match goal with E : (_ =? _)%string = false |- _ => rewrite E; clear E end.
    reflexivity.
Qed.

(** X12. A child that is neither a Section nor a Paragraph is rendered from
    its tag, its text and its language alone: its own children and its
    title are never looked at. *)
Theorem leaf_child_rendered_from_tag_text_language
    (limit : nat) (tag : string) (o : Options) (cs1 cs2 : list Node)
    (child child' : Node) (t : string) :
  is_section child = false -> is_paragraph child = false ->
  tagname child' = tagname child ->
  text child' = text child ->
  language (options child') = language (options child) ->
  _get_content env limit (mkNode tag o (cs1 ++ child :: cs2) t)
  = _get_content env limit (mkNode tag o (cs1 ++ child' :: cs2) t).
Proof.
  intros Hs Hp Htag Htext Hlang.
  apply (_get_content_replace_children limit tag o cs1 [child] [child'] cs2 t).
  - cbn [existsb]. rewrite Hs. reflexivity.
  - cbn [existsb]. unfold is_section in *. rewrite Htag, Hs. reflexivity.
  - intros recurse node content. cbn [for_children].
    unfold is_section, is_paragraph in *. rewrite Htag, Hs, Hp.
    unfold _parse_code_block. rewrite Htext, Hlang. reflexivity.
Qed.

(** X13. A root that is not a Section contributes nothing of its own: the
    rendering is that of its children, whatever its tag, options and
    text. *)
Theorem root_renders_children_only (limit : nat) (tag tag' : string)
    (o o' : Options) (cs : list Node) (t t' : string) :
  tag <> "Section" -> tag' <> "Section" ->
  _get_content env limit (mkNode tag o cs t)
  = _get_content env limit (mkNode tag' o' cs t').
Proof.
  intros H H'. apply String.eqb_neq in H, H'.
  destruct limit as [|limit]; [reflexivity|].
  destruct (existsb is_section cs) eqn:Hs.
  - rewrite !_get_content_subsection; auto.
  - rewrite !_get_content_S, H, H'.
    apply for_children_ext; [exact Hs|reflexivity].
Qed.

(** X14. Without a Section among its children, a node that is not a Section
    renders as its parts render, one after the other. *)
Theorem children_render_in_order (limit : nat) (tag : string) (o : Options)
    (cs1 cs2 : list Node) (t : string) :
  tag <> "Section" -> existsb is_section (cs1 ++ cs2) = false ->
  _get_content env limit (mkNode tag o (cs1 ++ cs2) t)
  = (first <- _get_content env limit (mkNode tag o cs1 t) ;;
     second <- _get_content env limit (mkNode tag o cs2 t) ;;
     Ok (first ++ second)).
Proof.
  intros H Hs. apply String.eqb_neq in H.
  rewrite existsb_is_section_app in Hs. apply orb_false_iff in Hs as [H1 H2].
  destruct limit as [|limit]; [reflexivity|].
  rewrite !_get_content_S, H, for_children_app.
  rewrite (for_children_ext (_get_content env limit) (_get_content env limit)
             (mkNode tag o (cs1 ++ cs2) t) (mkNode tag o cs1 t) cs1 [] H1)
    by reflexivity.
  destruct (for_children env _ _ cs1 []) as [first|e]; cbn [bind];
    [|reflexivity].
  rewrite for_children_appends.
  rewrite (for_children_ext (_get_content env limit) (_get_content env limit)
             (mkNode tag o (cs1 ++ cs2) t) (mkNode tag o cs2 t) cs2 [] H2)
    by reflexivity.
  reflexivity.
Qed.

(** X15. A tree in which the traversal meets no Section below the root is
    rendered at every recursion limit from its height on, and
    [render_section] then leaves the content area with one page, the
    focusable text area with a scrollbar that holds the merged
    fragments; the pages shown before are gone, and the input focus
    and the log of external calls are as before. *)
Theorem render_section_installs_document
    (limit : nat) (section : Node) (content : State) :
  height section <= limit -> no_subsection section = true ->
  exists items,
    _get_content env limit section = Ok items
    /\ render_section env limit section content
       = Ok (mkState (cls content)
               [FormattedTextArea (merge_formatted_text env items) true true]
               (history content) (focused content) (calls content)).
Proof.
  intros Hh Hn.
  destruct (_get_content_returns env limit section Hh Hn) as [items E].
  exists items. split; [exact E|].
  unfold render_section. rewrite E. reflexivity.
Qed.

End RendererLaws.

Lemma _get_content_limit_monotone_witness :
  2 <= 7
  /\ _get_content sample_env 2 two_paragraphs
     = _get_content sample_env 7 two_paragraphs.
Proof.
  assert (H : 2 <= 7) by lia. split; [exact H|].
  symmetry.
  exact (_get_content_limit_monotone sample_env 2 7 two_paragraphs _ H eq_refl).
Defined.

Lemma unknown_child_is_ignored_witness :
  is_known_tag (tagname (leaf "Footnote" "x")) = false
  /\ _get_content sample_env 1
       (paragraph ([leaf "Text" "A"] ++ leaf "Footnote" "x" :: [leaf "Strong" "B"]))
     = _get_content sample_env 1
         (paragraph ([leaf "Text" "A"] ++ [leaf "Strong" "B"])).
Proof.
  split; [reflexivity|].
  exact (unknown_child_is_ignored sample_env 1 "Paragraph" (mkOptions None None)
           [leaf "Text" "A"] [leaf "Strong" "B"] (leaf "Footnote" "x") ""
           eq_refl).
Defined.

Lemma leaf_child_rendered_from_tag_text_language_witness :
  let block := code_block (Some "python") "x = 1" in
  let block' := mkNode "CodeBlock" (mkOptions (Some "ignored") (Some "python"))
                       [section (Some "inside") []] "x = 1" in
  is_section block = false /\ is_paragraph block = false
  /\ _get_content sample_env 1 (paragraph ([] ++ block :: []))
     = _get_content sample_env 1 (paragraph ([] ++ block' :: [])).
Proof.
  intros block block'. split; [reflexivity|]. split; [reflexivity|].
  exact (leaf_child_rendered_from_tag_text_language sample_env 1 "Paragraph"
           (mkOptions None None) [] [] block block' ""
           eq_refl eq_refl eq_refl eq_refl eq_refl).
Defined.

Lemma root_renders_children_only_witness :
  "Text" <> "Section" /\ "Paragraph" <> "Section"
  /\ _get_content sample_env 1 (mkNode "Text" (mkOptions (Some "t") None)
                                  [leaf "Strong" "B"] "unused")
     = _get_content sample_env 1 (paragraph [leaf "Strong" "B"]).
Proof.
  assert (H : "Text" <> "Section") by discriminate.
  assert (H' : "Paragraph" <> "Section") by discriminate.
  split; [exact H|]. split; [exact H'|].
  exact (root_renders_children_only sample_env 1 "Text" "Paragraph"
           (mkOptions (Some "t") None) (mkOptions None None)
           [leaf "Strong" "B"] "unused" "" H H').
Defined.

Lemma children_render_in_order_witness :
  "Paragraph" <> "Section"
  /\ existsb is_section ([leaf "Text" "A"] ++ [code_block None "x"]) = false
  /\ _get_content sample_env 1
       (paragraph ([leaf "Text" "A"] ++ [code_block None "x"]))
     = (first <- _get_content sample_env 1 (paragraph [leaf "Text" "A"]) ;;
        second <- _get_content sample_env 1 (paragraph [code_block None "x"]) ;;
        Ok (first ++ second)).
Proof.
  assert (H : "Paragraph" <> "Section") by discriminate.
  split; [exact H|]. split; [reflexivity|].
  exact (children_render_in_order sample_env 1 "Paragraph" (mkOptions None None)
           [leaf "Text" "A"] [code_block None "x"] "" H eq_refl).
Defined.

Lemma render_section_installs_document_witness :
  height two_paragraphs <= 3 /\ no_subsection two_paragraphs = true
  /\ exists items,
       _get_content sample_env 3 two_paragraphs = Ok items
       /\ render_section sample_env 3 two_paragraphs
            (push sample_env (Widget 7) (init ContentArea None))
          = Ok (mkState ContentArea
                  [FormattedTextArea (merge_formatted_text sample_env items)
                     true true]
                  [] (Some 7) [GetFocusableWindows; LayoutFocus 7]).
Proof.
  assert (H : height two_paragraphs <= 3) by (apply Nat.leb_le; reflexivity).
  split; [exact H|]. split; [reflexivity|].
  exact (render_section_installs_document sample_env 3 two_paragraphs
           (push sample_env (Widget 7) (init ContentArea None)) H eq_refl).
Defined.

(** * Further properties of the indentation *)

Section IndentLaws.

Lemma unindent_indent_line (line : string) :
  line <> EmptyString ->
  unindent_line 2 (indent_line "  " line) = line.
Proof.
  intros Hne. unfold indent_line, unindent_line.
  destruct (isspace line) eqn:E; simpl negb; cbv iota.
  - rewrite E. reflexivity.
  - assert (F : isspace ("  " ++ line) = false).
    { destruct line as [|c line]; [congruence|].
      change (all_space (" " ++ " " ++ String c line) = false).
      rewrite !(proj1 (all_space_whitespace " " _ ltac:(in_list))).
      exact E. }
    rewrite F. reflexivity.
Qed.

(** X16. Nothing of a text is lost by the indentation of a code block:
    taking the two columns off every line that is not made of
    whitespace gives the text back. *)
Theorem indent_round_trip (t : string) :
  String.concat "" (map (unindent_line 2) (splitlines (indent t "  "))) = t.
Proof.
  rewrite splitlines_indent by reflexivity. rewrite map_map.
  pose proof (splitlines_Lines t) as HL.
  rewrite <- (Lines_concat t (splitlines t) HL) at 2.
  f_equal. rewrite <- (map_id (splitlines t)) at 2.
  apply map_ext_in. intros line Hin.
  apply unindent_indent_line.
  pose proof (Lines_nonempty t _ HL) as Hall.
  rewrite Forall_forall in Hall. apply Hall. exact Hin.
Qed.

End IndentLaws.

(** * Further properties of the status bar *)

Section StatusLaws.

Variable env : Env.



Variable elapse : nat -> Q.
Hypothesis elapse_nonneg : forall n, (0 <= elapse n)%Q.





End StatusLaws.

